(** * python-evdev, [evdev/events.py]: input events and their classifiers

    A shallow embedding of the module [evdev.events]: the generic
    [InputEvent], the four classifier classes [KeyEvent], [RelEvent],
    [AbsEvent] and [SynEvent], their [__str__] methods and the
    [event_factory] table.

    Python integers are [Z], Python floats are IEEE-754 binary64 values
    ([spec_float] at precision 53 and maximal exponent 1024), dictionaries
    are [gmap]s, and exceptions are values of an error monad. *)

From Stdlib Require Import ZArith Lia Ascii String List.
From Stdlib Require Import Floats.SpecFloat.
From stdpp Require Import base option list gmap strings.

Local Open Scope Z_scope.

(** ** Exceptions and the error monad *)

Module Py.

(** The exceptions the module can raise.  A [KeyError] carries the key that
    was looked up, an [AttributeError] the name of the attribute that was
    read before being assigned. *)
Inductive exn : Type :=
  | KeyError (key : Z)
  | AttributeError (attr : string)
  | IndexError
  | OverflowError
  | TypeError
  | ValueError.

Inductive res (A : Type) : Type :=
  | Ok (a : A)
  | Raise (e : exn).
Arguments Ok {A} a.
Arguments Raise {A} e.

#[export] Instance res_ret : MRet res := λ A a, Ok a.
#[export] Instance res_bind : MBind res := λ A B f m,
  match m with
  | Ok a => f a
  | Raise e => Raise e
  end.
#[export] Instance res_fmap : FMap res := λ A B f m,
  match m with
  | Ok a => Ok (f a)
  | Raise e => Raise e
  end.

(** [try: m except <handled>: h] *)
Definition try_except {A} (m : res A) (handled : exn → bool)
    (h : exn → res A) : res A :=
  match m with
  | Ok a => Ok a
  | Raise e => if handled e then h e else Raise e
  end.

Definition is_KeyError (e : exn) : bool :=
  match e with KeyError _ => true | _ => false end.
Definition is_IndexError (e : exn) : bool :=
  match e with IndexError => true | _ => false end.

(** Reading an attribute declared in [__slots__]: a slot that was never
    assigned raises [AttributeError]. *)
Definition slot_get {A} (name : string) (slot : option A) : res A :=
  match slot with
  | Some a => Ok a
  | None => Raise (AttributeError name)
  end.

(** [d[k]] on a dictionary with integer keys. *)
Definition dict_getitem {V} (d : gmap Z V) (k : Z) : res V :=
  match d !! k with
  | Some v => Ok v
  | None => Raise (KeyError k)
  end.

(** [t[i]] on a tuple: negative indices count from the end. *)
Definition tuple_getitem {V} (t : list V) (i : Z) : res V :=
  let n := Z.of_nat (length t) in
  let j := if i <? 0 then i + n else i in
  if (j <? 0) || (n <=? j) then Raise IndexError
  else match t !! Z.to_nat j with
       | Some v => Ok v
       | None => Raise IndexError
       end.

(** ** Values passed to [str.format] *)

Inductive obj : Type :=
  | Int (n : Z)
  | Float (f : spec_float)
  | Str (s : string)
  | StrList (l : list string).

(** ** binary64 arithmetic *)

Definition prec : Z := 53.
Definition emax : Z := 1024.

(** Conversion of an [int] operand of a float operation: rounded to the
    nearest double, ties to even; an integer too large for a double raises
    [OverflowError]. *)
Definition float_of_int (n : Z) : res spec_float :=
  match binary_normalize prec emax n 0 false with
  | S754_infinity _ => Raise OverflowError
  | f => Ok f
  end.

Definition float_add : spec_float → spec_float → spec_float := SFadd prec emax.
Definition float_div : spec_float → spec_float → spec_float := SFdiv prec emax.

(** The literal [1000000.0]. *)
Definition float_1000000 : spec_float :=
  Eval vm_compute in binary_normalize prec emax 1000000 0 false.

(** ** Number formatting *)

Definition squote : ascii := "'"%char.
Definition dquote : ascii := "034"%char.
Definition backslash : ascii := "\"%char.

Definition digit_char (upper : bool) (d : Z) : ascii :=
  ascii_of_nat (Z.to_nat (if d <? 10 then 48 + d
                          else if upper then 55 + d else 87 + d)).

Fixpoint digits_fuel (fuel : nat) (upper : bool) (base n : Z) (acc : string)
    : string :=
  match fuel with
  | O => acc
  | S fuel' =>
      let acc' := String (digit_char upper (n mod base)) acc in
      if n / base =? 0 then acc'
      else digits_fuel fuel' upper base (n / base) acc'
  end.

(** The digits of a non-negative integer in the given base, most
    significant first, without leading zeros ([0] is ["0"]). *)
Definition int_digits (upper : bool) (base n : Z) : string :=
  digits_fuel (S (Z.to_nat (Z.log2 n))) upper base n EmptyString.

Fixpoint repeat_char (c : ascii) (n : nat) : string :=
  match n with
  | O => EmptyString
  | S n' => String c (repeat_char c n')
  end.

(** Padding of a number to a minimal width: with the [0] flag the zeros go
    between the sign and the digits, without it the number is right-aligned
    with spaces. *)
Definition pad_number (zero : bool) (width : nat) (neg : bool) (body : string)
    : string :=
  let sign := if neg then "-" else EmptyString in
  let missing := (width - (String.length sign + String.length body))%nat in
  if zero then sign +:+ repeat_char "0" missing +:+ body
  else repeat_char " " missing +:+ sign +:+ body.

Definition round_half_even (num den : Z) : Z :=
  let q := num / den in
  match 2 * (num mod den) ?= den with
  | Lt => q
  | Gt => q + 1
  | Eq => if Z.even q then q else q + 1
  end.

(** The digits of [N / 10^p] in fixed-point notation with [p] decimals. *)
Definition fixed_digits (p : nat) (N : Z) : string :=
  let scale := 10 ^ Z.of_nat p in
  let frac := int_digits false 10 (N mod scale) in
  int_digits false 10 (N / scale) +:+
  match p with
  | O => EmptyString
  | _ => "." +:+ repeat_char "0" (p - String.length frac) +:+ frac
  end.

(** Presentation type [f] at precision [p]: the exact binary value,
    correctly rounded (ties to even) to [p] decimals.  Returns the sign and
    the unsigned text. *)
Definition float_fixed (p : nat) (x : spec_float) : bool * string :=
  match x with
  | S754_nan => (false, "nan")
  | S754_infinity s => (s, "inf")
  | S754_zero s => (s, fixed_digits p 0)
  | S754_finite s m e =>
      let scale := 10 ^ Z.of_nat p in
      let N := if 0 <=? e then Z.pos m * 2 ^ e * scale
               else round_half_even (Z.pos m * scale) (2 ^ (- e)) in
      (s, fixed_digits p N)
  end.

(** ** [str] and [repr] of the values that reach a format field *)

Definition int_str (n : Z) : string :=
  pad_number false 0 (n <? 0) (int_digits false 10 (Z.abs n)).

Fixpoint string_mem (c : ascii) (s : string) : bool :=
  match s with
  | EmptyString => false
  | String d r => if Ascii.eqb c d then true else string_mem c r
  end.

Definition escape_char (quote c : ascii) : string :=
  let n := Z.of_nat (nat_of_ascii c) in
  if Ascii.eqb c quote || Ascii.eqb c backslash then String backslash (String c EmptyString)
  else if n =? 9 then String backslash "t"
  else if n =? 10 then String backslash "n"
  else if n =? 13 then String backslash "r"
  else if (n <? 32) || (n =? 127) then
    String backslash ("x" +:+ pad_number true 2 false (int_digits false 16 n))
  else String c EmptyString.

Fixpoint escape_string (quote : ascii) (s : string) : string :=
  match s with
  | EmptyString => EmptyString
  | String c r => escape_char quote c +:+ escape_string quote r
  end.

(** [repr] of a [str]: single quotes unless the text has a single quote and
    no double quote; quotes, backslashes and control characters escaped.
    Bytes above 127 stand for printable non-ASCII text and are kept. *)
Definition str_repr (s : string) : string :=
  let quote := if string_mem squote s && negb (string_mem dquote s)
               then dquote else squote in
  String quote (escape_string quote s +:+ String quote EmptyString).

Fixpoint join (sep : string) (l : list string) : string :=
  match l with
  | [] => EmptyString
  | [x] => x
  | x :: r => x +:+ sep +:+ join sep r
  end.

Definition list_str (l : list string) : string :=
  "[" +:+ join ", " (map str_repr l) +:+ "]".

(** ** Format specifications

    The fragment [[0][width][.precision][type]] of the format
    mini-language, which covers every replacement field of the module. *)

Record fspec : Type := FSpec {
  fs_zero : bool;
  fs_width : nat;
  fs_prec : option nat;
  fs_type : option ascii
}.

Definition is_digit (c : ascii) : bool :=
  let n := nat_of_ascii c in (48 <=? n)%nat && (n <=? 57)%nat.

(** Reads a run of decimal digits; [None] when there is none. *)
Fixpoint read_nat (s : string) (acc : option nat) : option nat * string :=
  match s with
  | String c r =>
      if is_digit c
      then read_nat r (Some (10 * default 0%nat acc + (nat_of_ascii c - 48))%nat)
      else (acc, s)
  | EmptyString => (acc, s)
  end.

Definition parse_fspec (s : string) : option fspec :=
  let '(zero, s) := match s with
                    | String "0" r => (true, r)
                    | _ => (false, s)
                    end in
  let '(width, s) := read_nat s None in
  match match s with
        | String "." r =>
            match read_nat r None with
            | (Some p, r') => Some (Some p, r')
            | (None, _) => None
            end
        | _ => Some (None, s)
        end with
  | None => None
  | Some (p, s) =>
      match s with
      | EmptyString => Some (FSpec zero (default 0%nat width) p None)
      | String t EmptyString => Some (FSpec zero (default 0%nat width) p (Some t))
      | _ => None
      end
  end.

(** [format(v, spec)] for an integer. *)
Definition format_int (sp : fspec) (n : Z) : res string :=
  match fs_type sp, fs_prec sp with
  | (None | Some "d"%char), None =>
      Ok (pad_number (fs_zero sp) (fs_width sp) (n <? 0)
            (int_digits false 10 (Z.abs n)))
  | Some "X"%char, None =>
      Ok (pad_number (fs_zero sp) (fs_width sp) (n <? 0)
            (int_digits true 16 (Z.abs n)))
  | Some "x"%char, None =>
      Ok (pad_number (fs_zero sp) (fs_width sp) (n <? 0)
            (int_digits false 16 (Z.abs n)))
  | Some "f"%char, p =>
      f ← float_of_int n;
      let '(neg, body) := float_fixed (default 6%nat p) f in
      Ok (pad_number (fs_zero sp) (fs_width sp) neg body)
  | _, _ => Raise ValueError
  end.

(** [format(v, spec)] for a float; only the fixed-point presentation is
    modelled. *)
Definition format_float (sp : fspec) (x : spec_float) : res string :=
  match fs_type sp with
  | Some "f"%char =>
      let '(neg, body) := float_fixed (default 6%nat (fs_prec sp)) x in
      Ok (pad_number (fs_zero sp) (fs_width sp) neg body)
  | _ => Raise ValueError
  end.

(** [format(v, spec)]: strings and lists are modelled for the empty
    specification, where the result is [str(v)]. *)
Definition format_obj (spec : string) (v : obj) : res string :=
  match v with
  | Int n =>
      match parse_fspec spec with
      | Some sp => format_int sp n
      | None => Raise ValueError
      end
  | Float x =>
      match parse_fspec spec with
      | Some sp => format_float sp x
      | None => Raise ValueError
      end
  | Str s =>
      match spec with
      | EmptyString => Ok s
      | _ => Raise ValueError
      end
  | StrList l =>
      match spec with
      | EmptyString => Ok (list_str l)
      | _ => Raise TypeError
      end
  end.

(** ** [str.format] with automatically numbered fields *)

Inductive item : Type :=
  | Chr (c : ascii)
  | Field (spec : string).

(** The text between the braces of a replacement field: empty, or a colon
    and a format specification.  Named or indexed fields and conversions
    are outside the fragment. *)
Definition field_spec (body : string) : option string :=
  match body with
  | EmptyString => Some EmptyString
  | String ":" spec => Some spec
  | _ => None
  end.

(** [field] is [Some body] while the scan is inside a replacement field. *)
Fixpoint scan (s : string) (field : option string) : option (list item) :=
  match s, field with
  | EmptyString, None => Some []
  | EmptyString, Some _ => None
  | String c r, Some body =>
      if Ascii.eqb c "}" then
        spec ← field_spec body; (Field spec ::.) <$> scan r None
      else if Ascii.eqb c "{" then None
      else scan r (Some (body +:+ String c EmptyString))
  | String c r, None =>
      if Ascii.eqb c "{" then
        match r with
        | String "{" r' => (Chr "{" ::.) <$> scan r' None
        | _ => scan r (Some EmptyString)
        end
      else if Ascii.eqb c "}" then
        match r with
        | String "}" r' => (Chr "}" ::.) <$> scan r' None
        | _ => None
        end
      else (Chr c ::.) <$> scan r None
  end.

Fixpoint render (items : list item) (args : list obj) : res string :=
  match items with
  | [] => Ok EmptyString
  | Chr c :: r => String c <$> render r args
  | Field spec :: r =>
      match args with
      | [] => Raise IndexError
      | v :: args' =>
          s ← format_obj spec v;
          (String.append s) <$> render r args'
      end
  end.

(** [template.format(args...)] *)
Definition format (template : string) (args : list obj) : res string :=
  match scan template None with
  | Some items => render items args
  | None => Raise ValueError
  end.

(** ** Objects and the conversion [!r]

    What [str.format] uses of an argument: its [__format__] method, for a
    plain field, and its [repr], for a field with the conversion [!r]. *)

Record object : Type := Object {
  obj_format : string → res string;
  obj_repr : res string
}.

Definition int_object (n : Z) : object :=
  Object (λ spec, format_obj spec (Int n)) (Ok (int_str n)).

Definition str_object (s : string) : object :=
  Object (λ spec, format_obj spec (Str s)) (Ok (str_repr s)).

Inductive conv_item : Type :=
  | CChr (c : ascii)
  | CField (conv : bool) (spec : string).

(** The text between the braces: an optional [!r], then as in
    [field_spec]. *)
Definition field_conv_spec (body : string) : option (bool * string) :=
  match body with
  | String "!" (String "r" rest) => (true,.) <$> field_spec rest
  | _ => (false,.) <$> field_spec body
  end.

Fixpoint scan_conv (s : string) (field : option string)
    : option (list conv_item) :=
  match s, field with
  | EmptyString, None => Some []
  | EmptyString, Some _ => None
  | String c r, Some body =>
      if Ascii.eqb c "}" then
        '(conv, spec) ← field_conv_spec body;
        (CField conv spec ::.) <$> scan_conv r None
      else if Ascii.eqb c "{" then None
      else scan_conv r (Some (body +:+ String c EmptyString))
  | String c r, None =>
      if Ascii.eqb c "{" then
        match r with
        | String "{" r' => (CChr "{" ::.) <$> scan_conv r' None
        | _ => scan_conv r (Some EmptyString)
        end
      else if Ascii.eqb c "}" then
        match r with
        | String "}" r' => (CChr "}" ::.) <$> scan_conv r' None
        | _ => None
        end
      else (CChr c ::.) <$> scan_conv r None
  end.

(** A field with [!r] formats the text of [repr(v)] as a string. *)
Fixpoint render_conv (items : list conv_item) (args : list object)
    : res string :=
  match items with
  | [] => Ok EmptyString
  | CChr c :: r => String c <$> render_conv r args
  | CField conv spec :: r =>
      match args with
      | [] => Raise IndexError
      | v :: args' =>
          s ← (if conv then text ← obj_repr v; format_obj spec (Str text)
               else obj_format v spec);
          (String.append s) <$> render_conv r args'
      end
  end.

(** [template.format(args...)] on objects, with conversions. *)
Definition format_objects (template : string) (args : list object)
    : res string :=
  match scan_conv template None with
  | Some items => render_conv items args
  | None => Raise ValueError
  end.

End Py.

(** * The module [evdev.events] *)

Module Events.
Import Py.

(** Modelled from the spec: the name tables of [evdev.ecodes], which the
    module imports and which are not part of the sources.  A table maps a
    code to its name; a code of the key table can have several aliases, kept
    in registration order. *)
Inductive names : Type :=
  | Name (s : string)
  | Aliases (l : list string).

Definition names_obj (n : names) : obj :=
  match n with
  | Name s => Str s
  | Aliases l => StrList l
  end.

(** The names imported from [evdev.ecodes]: the tables [keys], [KEY], [SYN],
    [REL], [ABS] and the event types. *)
Record ecodes : Type := Ecodes {
  keys : gmap Z names;
  KEY : gmap Z names;
  SYN : gmap Z names;
  REL : gmap Z names;
  ABS : gmap Z names;
  EV_KEY : Z;
  EV_REL : Z;
  EV_ABS : Z;
  EV_SYN : Z
}.

(** ** [class InputEvent] *)

Record InputEvent : Type := mkInputEvent {
  sec : Z;
  usec : Z;
  type : Z;
  code : Z;
  value : Z
}.

Definition timestamp (self : InputEvent) : res spec_float :=
  q ← (u ← float_of_int (usec self); Ok (float_div u float_1000000));
  s ← float_of_int (sec self);
  Ok (float_add s q).

Definition InputEvent_str (s : InputEvent) : res string :=
  let msg := "event at {:f}, code {:02d}, type {:02d}, val {:02d}" in
  ts ← timestamp s;
  format msg [Float ts; Int (code s); Int (type s); Int (value s)].

(** [s.__class__.__name__] is the name of the class: the module defines no
    subclass. *)
Definition InputEvent_repr (s : InputEvent) : res string :=
  let msg := "{}({!r}, {!r}, {!r}, {!r}, {!r})" in
  format_objects msg
    [str_object "InputEvent"; int_object (sec s); int_object (usec s);
     int_object (type s); int_object (code s); int_object (value s)].

(** An [InputEvent] as an argument of [str.format]: [object.__format__]
    gives [str(self)] for the empty specification and raises [TypeError]
    for any other. *)
Definition InputEvent_object (e : InputEvent) : object :=
  Object (λ spec, match spec with
                  | EmptyString => InputEvent_str e
                  | _ => Raise TypeError
                  end)
         (InputEvent_repr e).

(** ** [class KeyEvent] *)

Module KeyEvent.

Definition key_up : Z := 0.
Definition key_down : Z := 1.
Definition key_hold : Z := 2.

(** The slots; [keystate] is the one slot that [__init__] can leave
    unassigned. *)
Record t : Type := mk {
  scancode : Z;
  keycode : names;
  keystate : option Z;
  event : InputEvent
}.

Definition allow_unknown_default : bool := false.

Definition init (keys : gmap Z names) (event : InputEvent)
    (allow_unknown : bool) : res t :=
  let scancode := code event in
  let keystate :=
    if value event =? 0 then Some key_up
    else if value event =? 2 then Some key_hold
    else if value event =? 1 then Some key_down
    else None in
  keycode ← try_except (dict_getitem keys (code event)) is_KeyError
    (λ err, if allow_unknown
            then Name <$> format "0x{:02X}" [Int (code event)]
            else Raise err);
  Ok (mk scancode keycode keystate event).

Definition str (self : t) : res string :=
  ks ← try_except
    (i ← slot_get "keystate" (keystate self);
     tuple_getitem ["up"; "down"; "hold"]%string i)
    is_IndexError (λ _, Ok "unknown"%string);
  let msg := "key event at {:f}, {} ({}), {}" in
  ts ← timestamp (event self);
  format msg [Float ts; Int (scancode self); names_obj (keycode self); Str ks].

Definition repr (s : t) : res string :=
  format_objects "{}({!r})" [str_object "KeyEvent"; InputEvent_object (event s)].

End KeyEvent.

(** ** [class RelEvent] *)

Module RelEvent.

Record t : Type := mk {
  event : InputEvent;
  keycode : names
}.

Definition allow_unknown_default : bool := false.

Definition init (REL : gmap Z names) (event : InputEvent)
    (allow_unknown : bool) : res t :=
  keycode ← try_except (dict_getitem REL (code event)) is_KeyError
    (λ err, if allow_unknown
            then Name <$> format "0x{:02X}" [Int (code event)]
            else Raise err);
  Ok (mk event keycode).

Definition str (self : t) : res string :=
  let msg := "relative axis event at {:f}, {} {} " in
  ts ← timestamp (event self);
  format msg [Float ts; names_obj (keycode self); Int (value (event self))].

Definition repr (s : t) : res string :=
  format_objects "{}({!r})" [str_object "RelEvent"; InputEvent_object (event s)].

End RelEvent.

(** ** [class AbsEvent] *)

Module AbsEvent.

Record t : Type := mk {
  event : InputEvent;
  keycode : names
}.

Definition allow_unknown_default : bool := false.

Definition init (ABS : gmap Z names) (event : InputEvent)
    (allow_unknown : bool) : res t :=
  keycode ← try_except (dict_getitem ABS (code event)) is_KeyError
    (λ err, if allow_unknown
            then Name <$> format "0x{:02X}" [Int (code event)]
            else Raise err);
  Ok (mk event keycode).

Definition str (self : t) : res string :=
  let msg := "absolute axis event at {:f}, {} {} " in
  ts ← timestamp (event self);
  format msg [Float ts; names_obj (keycode self); Int (value (event self))].

Definition repr (s : t) : res string :=
  format_objects "{}({!r})" [str_object "AbsEvent"; InputEvent_object (event s)].

End AbsEvent.

(** ** [class SynEvent] *)

Module SynEvent.

Record t : Type := mk {
  event : InputEvent;
  keycode : names
}.

Definition allow_unknown_default : bool := true.

Definition init (SYN : gmap Z names) (event : InputEvent)
    (allow_unknown : bool) : res t :=
  keycode ← try_except (dict_getitem SYN (code event)) is_KeyError
    (λ err, if allow_unknown
            then Name <$> format "0x{:02X}" [Int (code event)]
            else Raise err);
  Ok (mk event keycode).

Definition str (self : t) : res string :=
  let msg := "synchronization event at {:f}, {} " in
  ts ← timestamp (event self);
  format msg [Float ts; names_obj (keycode self)].

Definition repr (s : t) : res string :=
  format_objects "{}({!r})" [str_object "SynEvent"; InputEvent_object (event s)].

End SynEvent.

(** ** [event_factory] *)

(** The four classes, as the values of [event_factory]. *)
Inductive class : Type := KeyEventC | RelEventC | AbsEventC | SynEventC.

(** An instance of one of the four classes. *)
Inductive instance : Type :=
  | IKey (k : KeyEvent.t)
  | IRel (r : RelEvent.t)
  | IAbs (a : AbsEvent.t)
  | ISyn (s : SynEvent.t).

(** The dictionary display [{EV_KEY: KeyEvent, EV_REL: RelEvent,
    EV_ABS: AbsEvent, EV_SYN: SynEvent}]: the entries are stored in the order
    written, a later entry replacing an earlier one with an equal key. *)
Definition event_factory (ec : ecodes) : gmap Z class :=
  <[EV_SYN ec := SynEventC]>
    (<[EV_ABS ec := AbsEventC]>
       (<[EV_REL ec := RelEventC]>
          (<[EV_KEY ec := KeyEventC]> ∅))).

(** The table a class looks its codes up in. *)
Definition class_table (ec : ecodes) (c : class) : gmap Z names :=
  match c with
  | KeyEventC => keys ec
  | RelEventC => REL ec
  | AbsEventC => ABS ec
  | SynEventC => SYN ec
  end.

Definition class_default (c : class) : bool :=
  match c with
  | KeyEventC => KeyEvent.allow_unknown_default
  | RelEventC => RelEvent.allow_unknown_default
  | AbsEventC => AbsEvent.allow_unknown_default
  | SynEventC => SynEvent.allow_unknown_default
  end.

(** The call [cls(event, allow_unknown)] on a table; [cls(event)] is the
    call with [allow_unknown = None], which takes the default of the
    class. *)
Definition construct (c : class) (table : gmap Z names) (event : InputEvent)
    (allow_unknown : option bool) : res instance :=
  let au := default (class_default c) allow_unknown in
  match c with
  | KeyEventC => IKey <$> KeyEvent.init table event au
  | RelEventC => IRel <$> RelEvent.init table event au
  | AbsEventC => IAbs <$> AbsEvent.init table event au
  | SynEventC => ISyn <$> SynEvent.init table event au
  end.

Definition instance_keycode (i : instance) : names :=
  match i with
  | IKey k => KeyEvent.keycode k
  | IRel r => RelEvent.keycode r
  | IAbs a => AbsEvent.keycode a
  | ISyn s => SynEvent.keycode s
  end.

Definition instance_event (i : instance) : InputEvent :=
  match i with
  | IKey k => KeyEvent.event k
  | IRel r => RelEvent.event r
  | IAbs a => AbsEvent.event a
  | ISyn s => SynEvent.event s
  end.

Definition instance_class (i : instance) : class :=
  match i with
  | IKey _ => KeyEventC
  | IRel _ => RelEventC
  | IAbs _ => AbsEventC
  | ISyn _ => SynEventC
  end.



(** ** [categorize] *)

Inductive categorized : Type :=
  | Classified (i : instance)
  | Unchanged (event : InputEvent).

(** Modelled from the spec: [evdev.util.categorize], the consumer of
    [event_factory], is not part of the sources.  It looks [event.type] up
    in the dispatch table; if found it calls the class with the event alone,
    otherwise it returns the event unchanged. *)
Definition categorize (ec : ecodes) (event : InputEvent) : res categorized :=
  match event_factory ec !! type event with
  | Some c => Classified <$> construct c (class_table ec c) event None
  | None => Ok (Unchanged event)
  end.

End Events.

(** * Sample tables and events *)

Module Samples.
Import Py Events.

Definition enter_keys : gmap Z names := {[ 28 := Name "KEY_ENTER" ]}.

Definition mouse_keys : gmap Z names :=
  {[ 272 := Aliases ["BTN_LEFT"; "BTN_MOUSE"]%string ]}.

(** The event types of [linux/input.h], with small tables. *)
Definition linux_ecodes : ecodes :=
  {| keys := enter_keys;
     KEY := enter_keys;
     SYN := {[ 0 := Name "SYN_REPORT" ]};
     REL := {[ 0 := Name "REL_X" ]};
     ABS := {[ 0 := Name "ABS_X" ]};
     EV_KEY := 1;
     EV_REL := 2;
     EV_ABS := 3;
     EV_SYN := 0 |}.

Definition enter_up : InputEvent := mkInputEvent 1337197425 477835 1 28 0.
Definition enter_value3 : InputEvent := mkInputEvent 1337197425 477835 1 28 3.
Definition left_down : InputEvent := mkInputEvent 1337197425 477835 1 272 1.
Definition code29 : InputEvent := mkInputEvent 1337197425 477835 1 29 1.

End Samples.

(** * Notions used to state the properties *)

Module Reading.
Import Py Events.

(** The text [allow_unknown] falls back to. *)
Definition fallback_keycode (n : Z) : names :=
  Name ("0x" +:+ pad_number true 2 (n <? 0) (int_digits true 16 (Z.abs n))).

(** The state [KeyEvent.__init__] assigns, [None] when it assigns none. *)
Definition keystate_of (v : Z) : option Z :=
  if v =? 0 then Some KeyEvent.key_up
  else if v =? 2 then Some KeyEvent.key_hold
  else if v =? 1 then Some KeyEvent.key_down
  else None.

(** The single representative of a table entry: the name itself, or the
    first registered alias. *)
Definition first_registered_alias (n : names) : option string :=
  match n with
  | Name s => Some s
  | Aliases l => head l
  end.

(** Reading of an uppercase hexadecimal numeral, most significant digit
    first. *)
Definition upper_hex_digit (c : ascii) : option Z :=
  let n := Z.of_nat (nat_of_ascii c) in
  if (48 <=? n) && (n <=? 57) then Some (n - 48)
  else if (65 <=? n) && (n <=? 70) then Some (n - 55)
  else None.

Fixpoint upper_hex_value (s : string) (acc : Z) : option Z :=
  match s with
  | EmptyString => Some acc
  | String c r => d ← upper_hex_digit c; upper_hex_value r (16 * acc + d)
  end.

(** [h] is the uppercase hexadecimal representation of [n] padded to width
    2: it reads back as [n], has at least two digits, and has a leading zero
    only to reach two digits. *)
Definition upper_hex_width2 (h : string) (n : Z) : Prop :=
  upper_hex_value h 0 = Some n ∧
  (2 ≤ String.length h)%nat ∧
  ((2 < String.length h)%nat → ∀ r, h ≠ String "0" r).

(** The text of a field [{:f}], the fixed-point notation with six
    decimals. *)
Definition fixed6 (x : spec_float) : string :=
  let '(neg, body) := float_fixed 6 x in
  (if neg then "-" else EmptyString) +:+ body.

(** The text of a field [{:02d}]: decimal, zero-padded to width 2. *)
Definition dec02 (n : Z) : string :=
  pad_number true 2 (n <? 0) (int_digits false 10 (Z.abs n)).

(** The text of a field [{}] holding a [keycode]. *)
Definition names_str (k : names) : string :=
  match k with
  | Name s => s
  | Aliases l => list_str l
  end.

(** The nearest double of an integer, ties to even. *)
Definition nearest_double (n : Z) : spec_float :=
  binary_normalize prec emax n 0 false.

(** [f] is a double, positive or [+0.0], whose value is exactly
    [num / den]: a finite double [m * 2^ex] has [-1074 <= ex], so the
    equation is stated on the integers after scaling by [2^1074]. *)
Definition double_is (f : spec_float) (num den : Z) : Prop :=
  valid_binary prec emax f = true ∧
  match f with
  | S754_zero s => s = false ∧ num = 0
  | S754_finite false m ex => Z.pos m * 2 ^ (ex + 1074) * den = num * 2 ^ 1074
  | _ => False
  end.

(** [sec + usec / 1000000.0] in binary64 arithmetic. *)
Definition nominal_timestamp (e : InputEvent) : spec_float :=
  float_add (nearest_double (sec e))
    (float_div (nearest_double (usec e)) float_1000000).

(** The text [KeyEvent.__str__] shows for the integer held by the
    [keystate] slot: an index into [('up', 'down', 'hold')], where a
    negative index counts from the end and an index outside the tuple gives
    ['unknown']. *)
Definition state_text (k : Z) : string :=
  if (k =? 0) || (k =? -3) then "up"
  else if (k =? 1) || (k =? -2) then "down"
  else if (k =? 2) || (k =? -1) then "hold"
  else "unknown".

(** The timestamp written exactly: the seconds in decimal, a point, and
    the microseconds on six digits. *)
Definition exact_timestamp_text (e : InputEvent) : string :=
  int_digits false 10 (sec e) +:+ "." +:+
  repeat_char "0" (6 - String.length (int_digits false 10 (usec e))) +:+
  int_digits false 10 (usec e).







End Reading.

(** * Properties *)

Module Props.
Import Py Events Samples Reading.

(** ** Strings *)

Lemma app_nil_l (s : string) : EmptyString +:+ s = s.
Proof. reflexivity. Qed.

Lemma app_cons (c : ascii) (s t : string) :
  String c s +:+ t = String c (s +:+ t).
Proof. reflexivity. Qed.

Lemma app_nil_r (s : string) : s +:+ EmptyString = s.
Proof.
  induction s as [|c s IH]; [reflexivity|]. by rewrite app_cons, IH.
Qed.

Lemma app_assoc (s1 s2 s3 : string) : (s1 +:+ s2) +:+ s3 = s1 +:+ s2 +:+ s3.
Proof.
  induction s1 as [|c s1 IH]; [reflexivity|]. by rewrite !app_cons, IH.
Qed.

Lemma length_app (s1 s2 : string) :
  String.length (s1 +:+ s2) = (String.length s1 + String.length s2)%nat.
Proof.
  induction s1 as [|c s1 IH]; [reflexivity|].
  rewrite app_cons. simpl. by rewrite IH.
Qed.

(** ** The lookup policy shared by the four constructors *)

Lemma format_fallback (n : Z) :
  format "0x{:02X}" [Int n] =
  Ok ("0x" +:+ pad_number true 2 (n <? 0) (int_digits true 16 (Z.abs n))).
Proof.
  change (format "0x{:02X}" [Int n]) with
    (Ok ("0x" +:+ pad_number true 2 (n <? 0) (int_digits true 16 (Z.abs n))
         +:+ EmptyString)).
  by rewrite app_nil_r.
Qed.

Lemma lookup_policy (table : gmap Z names) (c : Z) (allow_unknown : bool) :
  try_except (dict_getitem table c) is_KeyError
    (λ err, if allow_unknown then Name <$> format "0x{:02X}" [Int c]
            else Raise err) =
  match table !! c with
  | Some entry => Ok entry
  | None => if allow_unknown then Ok (fallback_keycode c)
            else Raise (KeyError c)
  end.
Proof.
  rewrite format_fallback. unfold dict_getitem.
  destruct (table !! c) as [entry|]; [reflexivity|].
  destruct allow_unknown; reflexivity.
Qed.

Lemma KeyEvent_init_eq keys e au :
  KeyEvent.init keys e au =
  match keys !! code e with
  | Some entry => Ok (KeyEvent.mk (code e) entry (keystate_of (value e)) e)
  | None => if au
            then Ok (KeyEvent.mk (code e) (fallback_keycode (code e))
                       (keystate_of (value e)) e)
            else Raise (KeyError (code e))
  end.
Proof.
  unfold KeyEvent.init. rewrite lookup_policy.
  destruct (keys !! code e); [reflexivity|]. destruct au; reflexivity.
Qed.

Lemma RelEvent_init_eq REL e au :
  RelEvent.init REL e au =
  match REL !! code e with
  | Some entry => Ok (RelEvent.mk e entry)
  | None => if au then Ok (RelEvent.mk e (fallback_keycode (code e)))
            else Raise (KeyError (code e))
  end.
Proof.
  unfold RelEvent.init. rewrite lookup_policy.
  destruct (REL !! code e); [reflexivity|]. destruct au; reflexivity.
Qed.

Lemma AbsEvent_init_eq ABS e au :
  AbsEvent.init ABS e au =
  match ABS !! code e with
  | Some entry => Ok (AbsEvent.mk e entry)
  | None => if au then Ok (AbsEvent.mk e (fallback_keycode (code e)))
            else Raise (KeyError (code e))
  end.
Proof.
  unfold AbsEvent.init. rewrite lookup_policy.
  destruct (ABS !! code e); [reflexivity|]. destruct au; reflexivity.
Qed.

Lemma SynEvent_init_eq SYN e au :
  SynEvent.init SYN e au =
  match SYN !! code e with
  | Some entry => Ok (SynEvent.mk e entry)
  | None => if au then Ok (SynEvent.mk e (fallback_keycode (code e)))
            else Raise (KeyError (code e))
  end.
Proof.
  unfold SynEvent.init. rewrite lookup_policy.
  destruct (SYN !! code e); [reflexivity|]. destruct au; reflexivity.
Qed.

(** The outcome of a constructor call with an explicit [allow_unknown]. *)
Lemma construct_eq (c : class) table e au :
  construct c table e (Some au) =
  match table !! code e with
  | Some entry =>
      Ok match c with
         | KeyEventC => IKey (KeyEvent.mk (code e) entry (keystate_of (value e)) e)
         | RelEventC => IRel (RelEvent.mk e entry)
         | AbsEventC => IAbs (AbsEvent.mk e entry)
         | SynEventC => ISyn (SynEvent.mk e entry)
         end
  | None =>
      if au then
        Ok match c with
           | KeyEventC => IKey (KeyEvent.mk (code e) (fallback_keycode (code e))
                                  (keystate_of (value e)) e)
           | RelEventC => IRel (RelEvent.mk e (fallback_keycode (code e)))
           | AbsEventC => IAbs (AbsEvent.mk e (fallback_keycode (code e)))
           | SynEventC => ISyn (SynEvent.mk e (fallback_keycode (code e)))
           end
      else Raise (KeyError (code e))
  end.
Proof.
  destruct c; simpl;
    rewrite ?KeyEvent_init_eq, ?RelEvent_init_eq, ?AbsEvent_init_eq,
      ?SynEvent_init_eq;
    destruct (table !! code e); try destruct au; reflexivity.
Qed.

(** ** Failure of a constructor *)

(** C2, as stated, asks the error of a failed construction to carry the
    category.  The error is the [KeyError] of the table lookup, re-raised as
    it is: the key and the relative-axis constructors fail with the same
    value on the same event, so no function recovers the category from the
    error. *)
Lemma C2_error_carries_no_category :
  construct KeyEventC ∅ code29 (Some false) = Raise (KeyError 29) ∧
  construct RelEventC ∅ code29 (Some false) = Raise (KeyError 29) ∧
  ¬ ∃ category_of : exn → class,
      ∀ c table e au err,
        construct c table e au = Raise err → category_of err = c.
Proof.
  assert (HK : construct KeyEventC ∅ code29 (Some false) = Raise (KeyError 29))
    by reflexivity.
  assert (HR : construct RelEventC ∅ code29 (Some false) = Raise (KeyError 29))
    by reflexivity.
  split; [exact HK|]. split; [exact HR|].
  intros [category_of H].
  pose proof (H _ _ _ _ _ HK) as H1. pose proof (H _ _ _ _ _ HR) as H2.
  congruence.
Qed.

(** C2 (amended): a constructor call fails exactly when the code is absent
    from the table and [allow_unknown] (given, or the default of the class)
    is false; the failure is then the [KeyError] of the lookup, which
    carries the unresolved code, and nothing else is ever raised. *)
Theorem C2_construction_fails_iff (c : class) (table : gmap Z names)
    (e : InputEvent) (au : option bool) (err : exn) :
  construct c table e au = Raise err ↔
  table !! code e = None ∧ default (class_default c) au = false ∧
  err = KeyError (code e).
Proof.
  assert (Hau : construct c table e au =
                construct c table e (Some (default (class_default c) au)))
    by (destruct au; reflexivity).
  rewrite Hau, construct_eq.
  destruct (table !! code e) as [entry|].
  - split; [discriminate|]. intros [? _]; discriminate.
  - destruct (default (class_default c) au).
    + split; [discriminate|]. intros (_ & ? & _); discriminate.
    + split; [intros [= <-]; auto|]. intros (_ & _ & ->); reflexivity.
Qed.

(** ** The state of a key *)

(** C3: when the code resolves in the key table, the constructor succeeds for
    every value; the values 0, 1 and 2 give the states [key_up], [key_down]
    and [key_hold], and any other value leaves [keystate] unassigned. *)
Theorem C3_keystate_from_value (keys : gmap Z names) (e : InputEvent)
    (au : bool) (entry : names) :
  keys !! code e = Some entry →
  ∃ k, KeyEvent.init keys e au = Ok k ∧
       (value e = 0 → KeyEvent.keystate k = Some KeyEvent.key_up) ∧
       (value e = 1 → KeyEvent.keystate k = Some KeyEvent.key_down) ∧
       (value e = 2 → KeyEvent.keystate k = Some KeyEvent.key_hold) ∧
       (value e ≠ 0 → value e ≠ 1 → value e ≠ 2 →
        KeyEvent.keystate k = None).
Proof.
  intros Hin. rewrite KeyEvent_init_eq, Hin. eexists; split; [reflexivity|].
  simpl. unfold keystate_of.
  repeat split; intros; repeat case_match; try reflexivity; lia.
Qed.

(** C3 at the documented event: code 28 is in the table, value 0. *)
Lemma C3_keystate_from_value_witness :
  enter_keys !! code enter_up = Some (Name "KEY_ENTER") ∧
  ∃ k, KeyEvent.init enter_keys enter_up false = Ok k ∧
       (value enter_up = 0 → KeyEvent.keystate k = Some KeyEvent.key_up) ∧
       (value enter_up = 1 → KeyEvent.keystate k = Some KeyEvent.key_down) ∧
       (value enter_up = 2 → KeyEvent.keystate k = Some KeyEvent.key_hold) ∧
       (value enter_up ≠ 0 → value enter_up ≠ 1 → value enter_up ≠ 2 →
        KeyEvent.keystate k = None).
Proof.
  split; [reflexivity|].
  apply (C3_keystate_from_value enter_keys enter_up false (Name "KEY_ENTER")).
  reflexivity.
Defined.

Lemma keystate_of_cases (v : Z) :
  (v = 0 ∧ keystate_of v = Some 0) ∨ (v = 1 ∧ keystate_of v = Some 1) ∨
  (v = 2 ∧ keystate_of v = Some 2) ∨
  (v ≠ 0 ∧ v ≠ 1 ∧ v ≠ 2 ∧ keystate_of v = None).
Proof.
  unfold keystate_of, KeyEvent.key_up, KeyEvent.key_hold, KeyEvent.key_down.
  destruct (Z.eqb_spec v 0); [by left|].
  destruct (Z.eqb_spec v 2); [by right; right; left|].
  destruct (Z.eqb_spec v 1); [by right; left|]. by right; right; right.
Qed.

Lemma KeyEvent_init_keystate keys e au k :
  KeyEvent.init keys e au = Ok k →
  KeyEvent.keystate k = keystate_of (value e).
Proof.
  rewrite KeyEvent_init_eq.
  destruct (keys !! code e); [|destruct au]; intros [= <-]; reflexivity.
Qed.

(** Reading an unassigned [keystate] is not the [IndexError] that [__str__]
    handles. *)
Lemma KeyEvent_str_unset (k : KeyEvent.t) :
  KeyEvent.keystate k = None →
  KeyEvent.str k = Raise (AttributeError "keystate").
Proof. intros H. unfold KeyEvent.str. rewrite H. reflexivity. Qed.

(** C4: at the event (code 28, value 3) the constructor leaves [keystate]
    unassigned and [__str__] raises [AttributeError] instead of rendering
    ["unknown"]; the handler of [__str__] renders ["unknown"] only for an
    instance whose slot holds an index outside the tuple. *)
Theorem C4_unknown_value_display_raises :
  ∃ k, KeyEvent.init enter_keys enter_value3 false = Ok k ∧
       KeyEvent.keystate k = None ∧
       KeyEvent.str k = Raise (AttributeError "keystate") ∧
       KeyEvent.str (KeyEvent.mk 28 (Name "KEY_ENTER") (Some 3) enter_value3) =
       Ok "key event at 1337197425.477835, 28 (KEY_ENTER), unknown".
Proof.
  eexists. split; [reflexivity|]. split; [reflexivity|].
  split; [reflexivity|]. vm_compute. reflexivity.
Qed.

(** C10: a [keystate] that was assigned is [key_up] = 0, [key_down] = 1 or
    [key_hold] = 2; for any other value the slot is never assigned, and
    reading it, as [__str__] does first, raises [AttributeError]. *)
Theorem C10_keystate_slot (keys : gmap Z names) (e : InputEvent) (au : bool)
    (k : KeyEvent.t) :
  KeyEvent.init keys e au = Ok k →
  (∀ s, KeyEvent.keystate k = Some s →
        (s = KeyEvent.key_up ∧ s = 0 ∧ value e = 0) ∨
        (s = KeyEvent.key_down ∧ s = 1 ∧ value e = 1) ∨
        (s = KeyEvent.key_hold ∧ s = 2 ∧ value e = 2)) ∧
  (value e ≠ 0 → value e ≠ 1 → value e ≠ 2 →
   KeyEvent.keystate k = None ∧
   slot_get "keystate" (KeyEvent.keystate k) = Raise (AttributeError "keystate") ∧
   KeyEvent.str k = Raise (AttributeError "keystate")).
Proof.
  intros Hk. pose proof (KeyEvent_init_keystate _ _ _ _ Hk) as Hs.
  destruct (keystate_of_cases (value e))
    as [[Hv Hc]|[[Hv Hc]|[[Hv Hc]|(H0 & H1 & H2 & Hc)]]];
    rewrite Hc in Hs; (split; [intros s Hs'|intros ? ? ?]); try lia.
  - rewrite Hs in Hs'. injection Hs' as <-. left. by rewrite Hv.
  - rewrite Hs in Hs'. injection Hs' as <-. right; left. by rewrite Hv.
  - rewrite Hs in Hs'. injection Hs' as <-. right; right. by rewrite Hv.
  - rewrite Hs in Hs'. discriminate.
  - split; [exact Hs|]. split; [by rewrite Hs|]. by apply KeyEvent_str_unset.
Qed.

(** C10 at the event with code 28 and value 3. *)
Lemma C10_keystate_slot_witness :
  KeyEvent.init enter_keys enter_value3 false =
    Ok (KeyEvent.mk 28 (Name "KEY_ENTER") None enter_value3) ∧
  KeyEvent.str (KeyEvent.mk 28 (Name "KEY_ENTER") None enter_value3) =
    Raise (AttributeError "keystate").
Proof.
  split; [reflexivity|].
  apply (C10_keystate_slot enter_keys enter_value3 false
           (KeyEvent.mk 28 (Name "KEY_ENTER") None enter_value3) eq_refl);
    simpl; lia.
Defined.

(** ** Defaults of [allow_unknown] *)

(** C6: [allow_unknown] defaults to [False] in [KeyEvent], [RelEvent] and
    [AbsEvent] and to [True] in [SynEvent]: a call without the argument is
    the call with that value. *)
Theorem C6_allow_unknown_defaults (table : gmap Z names) (e : InputEvent) :
  construct KeyEventC table e None = construct KeyEventC table e (Some false) ∧
  construct RelEventC table e None = construct RelEventC table e (Some false) ∧
  construct AbsEventC table e None = construct AbsEventC table e (Some false) ∧
  construct SynEventC table e None = construct SynEventC table e (Some true) ∧
  KeyEvent.allow_unknown_default = false ∧
  RelEvent.allow_unknown_default = false ∧
  AbsEvent.allow_unknown_default = false ∧
  SynEvent.allow_unknown_default = true.
Proof. repeat split. Qed.

(** ** Dispatch *)

Lemma res_fmap_compose {A B C} (f : B → C) (g : A → B) (m : res A) :
  f <$> (g <$> m) = (f ∘ g) <$> m.
Proof. by destruct m. Qed.

Lemma event_factory_lookup (ec : ecodes) (ty : Z) :
  event_factory ec !! ty =
  if decide (EV_SYN ec = ty) then Some SynEventC
  else if decide (EV_ABS ec = ty) then Some AbsEventC
  else if decide (EV_REL ec = ty) then Some RelEventC
  else if decide (EV_KEY ec = ty) then Some KeyEventC
  else None.
Proof.
  unfold event_factory. rewrite !lookup_insert, lookup_empty.
  repeat case_decide; reflexivity.
Qed.

(** C5: with four distinct event types, an event of a registered type is
    handed to the class registered for it, called with the event alone, so
    with the default [allow_unknown] of the class; an event of any other
    type is returned unchanged. *)
Theorem C5_categorize_dispatch (ec : ecodes) (e : InputEvent) :
  NoDup [EV_KEY ec; EV_REL ec; EV_ABS ec; EV_SYN ec] →
  (type e = EV_KEY ec →
   categorize ec e =
   (Classified ∘ IKey) <$> KeyEvent.init (keys ec) e false) ∧
  (type e = EV_REL ec →
   categorize ec e =
   (Classified ∘ IRel) <$> RelEvent.init (REL ec) e false) ∧
  (type e = EV_ABS ec →
   categorize ec e =
   (Classified ∘ IAbs) <$> AbsEvent.init (ABS ec) e false) ∧
  (type e = EV_SYN ec →
   categorize ec e =
   (Classified ∘ ISyn) <$> SynEvent.init (SYN ec) e true) ∧
  (type e ≠ EV_KEY ec → type e ≠ EV_REL ec → type e ≠ EV_ABS ec →
   type e ≠ EV_SYN ec → categorize ec e = Ok (Unchanged e)).
Proof.
  intros Hnd.
  assert (EV_KEY ec ≠ EV_REL ec ∧ EV_KEY ec ≠ EV_ABS ec ∧
          EV_KEY ec ≠ EV_SYN ec ∧ EV_REL ec ≠ EV_ABS ec ∧
          EV_REL ec ≠ EV_SYN ec ∧ EV_ABS ec ≠ EV_SYN ec) as (?&?&?&?&?&?).
  { apply NoDup_cons in Hnd as [Hk Hnd].
    apply NoDup_cons in Hnd as [Hr Hnd]. apply NoDup_cons in Hnd as [Ha _].
    set_solver. }
  unfold categorize. rewrite event_factory_lookup.
  repeat split.
  - intros ->. rewrite !decide_False, decide_True by congruence.
    apply res_fmap_compose.
  - intros ->. rewrite !decide_False, decide_True by congruence.
    apply res_fmap_compose.
  - intros ->. rewrite decide_False, decide_True by congruence.
    apply res_fmap_compose.
  - intros ->. rewrite decide_True by congruence.
    apply res_fmap_compose.
  - intros. by rewrite !decide_False by congruence.
Qed.

Lemma linux_ecodes_distinct :
  NoDup [EV_KEY linux_ecodes; EV_REL linux_ecodes;
         EV_ABS linux_ecodes; EV_SYN linux_ecodes].
Proof.
  simpl. repeat (apply NoDup_cons; split); try apply NoDup_nil_2;
    rewrite ?elem_of_cons, ?elem_of_nil; lia.
Qed.

(** C5 at the event types of [linux/input.h]: a key event, and an event of
    the unregistered type 4. *)
Lemma C5_categorize_dispatch_witness :
  categorize linux_ecodes enter_up =
    (Classified ∘ IKey) <$> KeyEvent.init (keys linux_ecodes) enter_up false ∧
  categorize linux_ecodes (mkInputEvent 0 0 4 4 458792) =
    Ok (Unchanged (mkInputEvent 0 0 4 4 458792)).
Proof.
  pose proof linux_ecodes_distinct as Hnd.
  split.
  - apply (C5_categorize_dispatch linux_ecodes enter_up Hnd). reflexivity.
  - apply (C5_categorize_dispatch linux_ecodes (mkInputEvent 0 0 4 4 458792) Hnd);
      simpl; lia.
Defined.

(** ** The documented example *)

(** C8: the event (1337197425, 477835, type, 28, 0), classified on a key
    table that maps 28 to KEY_ENTER, is the key event with scancode 28,
    keycode KEY_ENTER and state [key_up], displayed as in the docstring of
    the module. *)
Theorem C8_golden_key_enter_up (ty : Z) :
  let e := mkInputEvent 1337197425 477835 ty 28 0 in
  let k := KeyEvent.mk 28 (Name "KEY_ENTER") (Some KeyEvent.key_up) e in
  construct KeyEventC enter_keys e None = Ok (IKey k) ∧
  KeyEvent.init enter_keys e false = Ok k ∧
  KeyEvent.str k = Ok "key event at 1337197425.477835, 28 (KEY_ENTER), up".
Proof.
  intros e k. split; [reflexivity|]. split; [reflexivity|].
  vm_compute. reflexivity.
Qed.

(** ** Hexadecimal digits *)

Lemma digit_char_value (d : Z) :
  0 ≤ d < 16 → upper_hex_digit (digit_char true d) = Some d.
Proof.
  intros Hd.
  assert (d = 0 ∨ d = 1 ∨ d = 2 ∨ d = 3 ∨ d = 4 ∨ d = 5 ∨ d = 6 ∨ d = 7 ∨
          d = 8 ∨ d = 9 ∨ d = 10 ∨ d = 11 ∨ d = 12 ∨ d = 13 ∨ d = 14 ∨
          d = 15) as Hcases by lia.
  repeat (destruct Hcases as [->|Hcases]; [reflexivity|]).
  by subst.
Qed.

Lemma digit_char_nonzero (d : Z) :
  0 < d < 16 → digit_char true d ≠ "0"%char.
Proof.
  intros Hd.
  assert (d = 1 ∨ d = 2 ∨ d = 3 ∨ d = 4 ∨ d = 5 ∨ d = 6 ∨ d = 7 ∨
          d = 8 ∨ d = 9 ∨ d = 10 ∨ d = 11 ∨ d = 12 ∨ d = 13 ∨ d = 14 ∨
          d = 15) as Hcases by lia.
  repeat (destruct Hcases as [->|Hcases]; [discriminate|]).
  by subst.
Qed.

Lemma digits_fuel_acc (fuel : nat) (upper : bool) (base n : Z) (acc : string) :
  digits_fuel fuel upper base n acc =
  digits_fuel fuel upper base n EmptyString +:+ acc.
Proof.
  revert n acc. induction fuel as [|fuel IH]; intros n acc; [reflexivity|].
  simpl. destruct (n / base =? 0); [reflexivity|].
  rewrite IH, (IH _ (String _ EmptyString)), app_assoc. reflexivity.
Qed.

Lemma upper_hex_value_app (s1 s2 : string) (a : Z) :
  upper_hex_value (s1 +:+ s2) a = upper_hex_value s1 a ≫= upper_hex_value s2.
Proof.
  revert a. induction s1 as [|c s1 IH]; intros a; [reflexivity|].
  rewrite app_cons. simpl. destruct (upper_hex_digit c); [apply IH|reflexivity].
Qed.

Lemma div16_small (n : Z) : 0 ≤ n → n / 16 = 0 → n mod 16 = n ∧ n < 16.
Proof.
  intros Hn Hq. pose proof (Z.div_mod n 16 ltac:(lia)).
  pose proof (Z.mod_pos_bound n 16 ltac:(lia)). lia.
Qed.

Lemma div16_fuel (n : Z) (fuel : nat) :
  0 ≤ n < 2 ^ Z.of_nat (S fuel) → 0 ≤ n / 16 < 2 ^ Z.of_nat fuel.
Proof.
  intros [Hn Hlt]. split; [apply Z.div_pos; lia|].
  apply Z.div_lt_upper_bound; [lia|].
  rewrite Nat2Z.inj_succ, Z.pow_succ_r in Hlt by lia.
  pose proof (Z.pow_pos_nonneg 2 (Z.of_nat fuel) ltac:(lia) ltac:(lia)). lia.
Qed.

(** The digits read back as the number. *)
Lemma digits_fuel_value (fuel : nat) (n a : Z) :
  0 ≤ n < 2 ^ Z.of_nat fuel →
  upper_hex_value (digits_fuel fuel true 16 n EmptyString) a =
  Some (a * 16 ^ Z.of_nat (String.length (digits_fuel fuel true 16 n EmptyString))
        + n).
Proof.
  revert n a. induction fuel as [|fuel IH]; intros n a Hn.
  - simpl in *. f_equal. lia.
  - simpl. destruct (Z.eqb_spec (n / 16) 0) as [Hq|Hq].
    + destruct (div16_small n ltac:(lia) Hq) as [Hmod Hlt]. rewrite Hmod.
      simpl. rewrite digit_char_value by lia. simpl. f_equal. lia.
    + rewrite digits_fuel_acc, upper_hex_value_app, IH by (by apply div16_fuel).
      simpl. rewrite digit_char_value by (apply Z.mod_pos_bound; lia). simpl.
      f_equal. rewrite length_app. simpl.
      rewrite Nat2Z.inj_add, Z.pow_add_r by lia.
      pose proof (Z.div_mod n 16 ltac:(lia)).
      change (16 ^ Z.of_nat 1) with 16. lia.
Qed.

(** A positive number has no leading zero. *)
Lemma digits_fuel_head (fuel : nat) (n : Z) :
  0 < n < 2 ^ Z.of_nat fuel →
  ∃ c r, digits_fuel fuel true 16 n EmptyString = String c r ∧ c ≠ "0"%char.
Proof.
  revert n. induction fuel as [|fuel IH]; intros n Hn.
  - simpl in Hn. lia.
  - simpl. destruct (Z.eqb_spec (n / 16) 0) as [Hq|Hq].
    + destruct (div16_small n ltac:(lia) Hq) as [Hmod Hlt]. rewrite Hmod.
      eexists _, _. split; [reflexivity|]. apply digit_char_nonzero. lia.
    + pose proof (div16_fuel n fuel ltac:(lia)) as Hdiv.
      destruct (IH (n / 16) ltac:(lia)) as (c & r & Heq & Hc).
      rewrite digits_fuel_acc, Heq. eexists _, _. split; [reflexivity|done].
Qed.

Lemma int_digits_fuel (n : Z) :
  0 ≤ n → n < 2 ^ Z.of_nat (S (Z.to_nat (Z.log2 n))).
Proof.
  intros Hn. rewrite Nat2Z.inj_succ, Z2Nat.id by apply Z.log2_nonneg.
  destruct (Z.eq_dec n 0) as [->|Hne]; [reflexivity|].
  apply Z.log2_spec. lia.
Qed.

Lemma int_digits_nonempty (upper : bool) (base n : Z) :
  (1 ≤ String.length (int_digits upper base n))%nat.
Proof.
  unfold int_digits. simpl. destruct (n / base =? 0); [simpl; lia|].
  rewrite digits_fuel_acc, length_app. simpl. lia.
Qed.

(** What [{:02X}] prints for a non-negative code is its uppercase
    hexadecimal representation padded to width 2. *)
Lemma pad_hex_width2 (n : Z) :
  0 ≤ n →
  upper_hex_width2 (pad_number true 2 (n <? 0) (int_digits true 16 (Z.abs n))) n.
Proof.
  intros Hn. rewrite Z.abs_eq by lia.
  destruct (Z.ltb_spec n 0) as [?|_]; [lia|].
  pose proof (int_digits_fuel n Hn) as Hfuel.
  pose proof (int_digits_nonempty true 16 n) as Hlen.
  pose proof (digits_fuel_value _ n 0 (conj Hn Hfuel)) as Hval.
  fold (int_digits true 16 n) in Hval. simpl in Hval.
  unfold pad_number. rewrite app_nil_l. simpl String.length.
  destruct (String.length (int_digits true 16 n)) as [|[|len]] eqn:Hl; [lia| |].
  - destruct (int_digits true 16 n) as [|c [|c' r]] eqn:Hd; try discriminate.
    simpl. split; [exact Hval|]. split; simpl; lia.
  - simpl. rewrite app_nil_l. split; [exact Hval|]. rewrite Hl.
    split; [lia|]. intros _ r Hr.
    assert (0 < n) as Hpos.
    { destruct (Z.eq_dec n 0) as [->|]; [discriminate Hl|lia]. }
    destruct (digits_fuel_head _ n (conj Hpos Hfuel)) as (c & r' & Heq & Hc).
    fold (int_digits true 16 n) in Heq. congruence.
Qed.

(** ** The resolved name *)

(** C1, as stated, has the key classifier choose the first registered alias
    of a code with several aliases.  [KeyEvent.__init__] stores the entry of
    the table as it is: for the code 272, registered as BTN_LEFT and
    BTN_MOUSE, [keycode] is the list of both names. *)
Lemma C1_alias_list_is_kept :
  mouse_keys !! code left_down = Some (Aliases ["BTN_LEFT"; "BTN_MOUSE"]%string) ∧
  first_registered_alias (Aliases ["BTN_LEFT"; "BTN_MOUSE"]%string) =
    Some "BTN_LEFT"%string ∧
  ∃ k, KeyEvent.init mouse_keys left_down false = Ok k ∧
       KeyEvent.keycode k = Aliases ["BTN_LEFT"; "BTN_MOUSE"]%string ∧
       KeyEvent.keycode k ≠ Name "BTN_LEFT".
Proof.
  split; [reflexivity|]. split; [reflexivity|].
  eexists. split; [reflexivity|]. split; [reflexivity|]. discriminate.
Qed.

(** C1 (amended): for each of the four classes, if the code is in the table
    the constructor succeeds and [keycode] is the entry of the table as it
    is (a name, or the whole list of aliases); if the code is absent,
    [allow_unknown] is true and the code is not negative, it succeeds and
    [keycode] is [0x] followed by the uppercase hexadecimal representation
    of the code padded to width 2. *)
Theorem C1_keycode_lookup (c : class) (table : gmap Z names) (e : InputEvent)
    (au : bool) :
  (∀ entry, table !! code e = Some entry →
     ∃ i, construct c table e (Some au) = Ok i ∧ instance_class i = c ∧
          instance_event i = e ∧ instance_keycode i = entry) ∧
  (table !! code e = None → au = true → 0 ≤ code e →
     ∃ i h, construct c table e (Some au) = Ok i ∧ instance_class i = c ∧
            instance_event i = e ∧
            instance_keycode i = Name ("0x" +:+ h) ∧
            upper_hex_width2 h (code e)).
Proof.
  rewrite construct_eq. split.
  - intros entry ->. eexists. split; [reflexivity|]. by destruct c.
  - intros -> -> Hcode. eexists _, _. split; [reflexivity|].
    split; [by destruct c|]. split; [by destruct c|].
    split; [by destruct c|]. by apply pad_hex_width2.
Qed.

(** C1 at a registered relative axis and at the unregistered key code 29. *)
Lemma C1_keycode_lookup_witness :
  (∃ i, construct RelEventC (REL linux_ecodes) (mkInputEvent 0 0 2 0 5)
          (Some false) = Ok i ∧ instance_class i = RelEventC ∧
        instance_event i = mkInputEvent 0 0 2 0 5 ∧
        instance_keycode i = Name "REL_X") ∧
  (∃ i h, construct KeyEventC enter_keys code29 (Some true) = Ok i ∧
          instance_class i = KeyEventC ∧ instance_event i = code29 ∧
          instance_keycode i = Name ("0x" +:+ h) ∧
          upper_hex_width2 h (code code29)).
Proof.
  split.
  - apply (C1_keycode_lookup RelEventC (REL linux_ecodes)
             (mkInputEvent 0 0 2 0 5) false). reflexivity.
  - apply (C1_keycode_lookup KeyEventC enter_keys code29 true);
      [reflexivity|reflexivity|simpl; lia].
Defined.

(** ** Conversion of integers to binary64 *)

Lemma digits2_pos_size (p : positive) : digits2_pos p = Pos.size p.
Proof. induction p as [p IH|p IH|]; simpl; by rewrite ?IH. Qed.

Lemma digits2_pos_gt (p : positive) : Z.pos p < 2 ^ Z.pos (digits2_pos p).
Proof.
  rewrite digits2_pos_size. pose proof (Pos.size_gt p) as H.
  apply Pos2Z.pos_lt_pos in H. by rewrite Pos2Z.inj_pow in H.
Qed.

Lemma digits2_pos_le (p : positive) (k : Z) :
  Z.pos p < 2 ^ k → Z.pos (digits2_pos p) ≤ k.
Proof.
  intros Hlt. rewrite digits2_pos_size.
  destruct (Z.le_gt_cases 0 k) as [Hk|Hk];
    [|rewrite Z.pow_neg_r in Hlt by lia; lia].
  pose proof (Pos.size_le p) as H. apply Pos2Z.pos_le_pos in H.
  rewrite Pos2Z.inj_pow in H. change (Z.pos p~0) with (2 * Z.pos p) in H.
  assert (2 ^ Z.pos (Pos.size p) < 2 ^ (k + 1)) as Hpow
    by (rewrite Z.pow_add_r by lia; lia).
  apply Z.pow_lt_mono_r_iff in Hpow; lia.
Qed.

Lemma Zdigits2_le (m k : Z) : 0 ≤ m < 2 ^ k → 0 ≤ k → Zdigits2 m ≤ k.
Proof.
  intros [Hm Hlt] Hk. destruct m as [|p|p]; simpl; [lia| |lia].
  by apply digits2_pos_le.
Qed.

Lemma digits2_pos_iter_xO (m d : positive) :
  digits2_pos (Pos.iter xO m d) = (digits2_pos m + d)%positive.
Proof.
  induction d as [|d IH] using Pos.peano_ind.
  - simpl. lia.
  - rewrite Pos.iter_succ. simpl. rewrite IH. lia.
Qed.

Lemma shr_1_m (mrs : shr_record) :
  0 ≤ shr_m mrs → 0 ≤ shr_m (shr_1 mrs) ≤ shr_m mrs.
Proof.
  destruct mrs as [m r s]. simpl. intros Hm.
  destruct m as [|[p|p|]|p]; simpl; lia.
Qed.

Lemma iter_pos_shr_1_m (p : positive) (mrs : shr_record) :
  0 ≤ shr_m mrs → 0 ≤ shr_m (SpecFloat.iter_pos shr_1 p mrs) ≤ shr_m mrs.
Proof.
  revert mrs. induction p as [p IH|p IH|]; intros mrs Hm; simpl.
  - pose proof (shr_1_m mrs Hm). pose proof (IH (shr_1 mrs) ltac:(lia)).
    pose proof (IH (SpecFloat.iter_pos shr_1 p (shr_1 mrs)) ltac:(lia)). lia.
  - pose proof (IH mrs Hm).
    pose proof (IH (SpecFloat.iter_pos shr_1 p mrs) ltac:(lia)). lia.
  - by apply shr_1_m.
Qed.

Lemma shr_record_of_loc_m (m : Z) (l : location) :
  shr_m (shr_record_of_loc m l) = m.
Proof. by destruct l as [|[]]. Qed.

(** The shift to the canonical exponent keeps the mantissa between 0 and
    what it was, and ends at the larger of the two exponents. *)
Lemma shr_fexp_bounds (m e : Z) (l : location) (mrs : shr_record) (e' : Z) :
  0 ≤ m → shr_fexp prec emax m e l = (mrs, e') →
  0 ≤ shr_m mrs ≤ m ∧ e' = Z.max e (fexp prec emax (Zdigits2 m + e)).
Proof.
  intros Hm. unfold shr_fexp, shr.
  destruct (fexp prec emax (Zdigits2 m + e) - e) as [|p|p] eqn:Hd;
    intros [= <- <-].
  - rewrite shr_record_of_loc_m. lia.
  - pose proof (iter_pos_shr_1_m p (shr_record_of_loc m l)) as H.
    rewrite shr_record_of_loc_m in H. lia.
  - rewrite shr_record_of_loc_m. lia.
Qed.

Lemma round_nearest_even_bounds (m : Z) (l : location) :
  m ≤ round_nearest_even m l ≤ m + 1.
Proof. destruct l as [|[]]; simpl; try destruct (Z.even m); lia. Qed.

(** Rounding a mantissa below [2^64] at a small exponent never reaches the
    infinities. *)
Lemma binary_round_aux_finite (sx : bool) (mx ex : Z) (lx : location) :
  0 ≤ mx < 2 ^ 64 → ex ≤ 0 → Zdigits2 mx + ex ≤ 64 →
  ∀ s, binary_round_aux prec emax sx mx ex lx ≠ S754_infinity s.
Proof.
  intros Hmx Hex Hdig s. unfold binary_round_aux.
  destruct (shr_fexp prec emax mx ex lx) as [mrs' e'] eqn:H1.
  apply shr_fexp_bounds in H1 as [Hm' He']; [|lia].
  set (r := round_nearest_even (shr_m mrs') (loc_of_shr_record mrs')).
  pose proof (round_nearest_even_bounds (shr_m mrs') (loc_of_shr_record mrs'))
    as Hr. fold r in Hr.
  destruct (shr_fexp prec emax r e' loc_Exact) as [mrs'' e''] eqn:H2.
  apply shr_fexp_bounds in H2 as [Hm'' He'']; [|lia].
  assert (Zdigits2 r ≤ 65) as Hdr.
  { apply Zdigits2_le; [|lia]. change (2 ^ 65) with (2 * 2 ^ 64). lia. }
  unfold fexp, SpecFloat.emin, prec, emax in *.
  destruct (shr_m mrs'') as [|m|m]; [discriminate| |discriminate].
  destruct (Z.leb_spec e'' (1024 - 53)); [discriminate|lia].
Qed.

Lemma shl_align_fexp_bounds (m mz : positive) (ez : Z) :
  Z.pos m < 2 ^ 64 →
  shl_align m 0 (fexp prec emax (Z.pos (digits2_pos m) + 0)) = (mz, ez) →
  Z.pos mz < 2 ^ 64 ∧ ez ≤ 0 ∧ Z.pos (digits2_pos mz) + ez ≤ 64.
Proof.
  intros Hm. pose proof (digits2_pos_le m 64 Hm) as Hd.
  unfold shl_align, fexp, SpecFloat.emin, prec, emax.
  destruct (Z.max (Z.pos (digits2_pos m) + 0 - 53) (3 - 1024 - 53) - 0)
    as [|d|d] eqn:Hs; intros [= <- <-]; try lia.
  assert (Z.pos (digits2_pos (Pos.iter xO m d)) = Z.pos (digits2_pos m) + Z.pos d)
    as Hdig by (rewrite digits2_pos_iter_xO; lia).
  split; [|lia].
  pose proof (digits2_pos_gt (Pos.iter xO m d)) as Hgt. rewrite Hdig in Hgt.
  eapply Z.lt_le_trans; [exact Hgt|]. apply Z.pow_le_mono_r; lia.
Qed.

Lemma binary_normalize_finite (n : Z) :
  Z.abs n < 2 ^ 64 → ∀ s, binary_normalize prec emax n 0 false ≠ S754_infinity s.
Proof.
  intros Hn s. destruct n as [|m|m]; simpl; [discriminate| |].
  - unfold binary_round.
    destruct (shl_align m 0 _) as [mz ez] eqn:Hal.
    apply shl_align_fexp_bounds in Hal as (? & ? & ?); [|exact Hn].
    apply binary_round_aux_finite; simpl; lia.
  - unfold binary_round.
    destruct (shl_align m 0 _) as [mz ez] eqn:Hal.
    apply shl_align_fexp_bounds in Hal as (? & ? & ?); [|exact Hn].
    apply binary_round_aux_finite; simpl; lia.
Qed.

(** An integer that fits in 64 bits converts without [OverflowError]. *)
Lemma float_of_int_ok (n : Z) :
  Z.abs n < 2 ^ 64 → float_of_int n = Ok (binary_normalize prec emax n 0 false).
Proof.
  intros Hn. unfold float_of_int.
  pose proof (binary_normalize_finite n Hn) as Hfin.
  destruct (binary_normalize prec emax n 0 false); try reflexivity.
  by destruct (Hfin s).
Qed.

Lemma timestamp_ok (e : InputEvent) :
  Z.abs (sec e) < 2 ^ 64 → Z.abs (usec e) < 2 ^ 64 →
  timestamp e = Ok (nominal_timestamp e).
Proof.
  intros Hs Hu. unfold timestamp, nominal_timestamp.
  rewrite (float_of_int_ok _ Hs), (float_of_int_ok _ Hu). reflexivity.
Qed.

(** ** Exact conversions *)

Lemma pos_iter_xO (m d : positive) :
  Z.pos (Pos.iter xO m d) = Z.pos m * 2 ^ Z.pos d.
Proof.
  induction d as [|d IH] using Pos.peano_ind.
  - simpl. lia.
  - rewrite Pos.iter_succ, Pos2Z.inj_succ, Z.pow_succ_r by lia.
    change (Z.pos (Pos.iter xO m d)~0) with (2 * Z.pos (Pos.iter xO m d)).
    rewrite IH. lia.
Qed.

(** A mantissa of 53 bits at an exponent in range is already rounded. *)
Lemma binary_round_aux_canonical (sx : bool) (mz : positive) (ez : Z) :
  Z.pos (digits2_pos mz) = 53 → -1074 ≤ ez ≤ 971 →
  binary_round_aux prec emax sx (Z.pos mz) ez loc_Exact = S754_finite sx mz ez.
Proof.
  intros Hd He.
  assert (Hshift : fexp prec emax (Z.pos (digits2_pos mz) + ez) - ez = 0).
  { unfold fexp, SpecFloat.emin, prec, emax. lia. }
  unfold binary_round_aux, shr_fexp. simpl Zdigits2. rewrite Hshift. simpl.
  rewrite Hshift. simpl.
  destruct (Z.leb_spec ez (emax - prec)) as [_|Hgt]; [reflexivity|].
  unfold prec, emax in Hgt. lia.
Qed.

Lemma float_div_zero : float_div (nearest_double 0) float_1000000 = S754_zero false.
Proof. reflexivity. Qed.

(** Shifting out zeros loses nothing. *)
Lemma iter_pos_shr_1_exact (p m : positive) :
  SpecFloat.iter_pos shr_1 p
    (Build_shr_record (Z.pos (Pos.iter xO m p)) false false) =
  Build_shr_record (Z.pos m) false false.
Proof.
  revert m. induction p as [p IH|p IH|]; intros m; simpl.
  - rewrite IH, IH. reflexivity.
  - rewrite IH, IH. reflexivity.
  - reflexivity.
Qed.

Lemma binary_round_aux_shifted (sx : bool) (md j : positive) (ed : Z) :
  Z.pos (digits2_pos md) = 53 → (-1074 ≤ ed ≤ 971)%Z →
  binary_round_aux prec emax sx (Z.pos (Pos.iter xO md j)) (ed - Z.pos j)
    loc_Exact = S754_finite sx md ed.
Proof.
  intros Hd He.
  assert (Hshift : fexp prec emax (Z.pos (digits2_pos (Pos.iter xO md j))
                                   + (ed - Z.pos j)) - (ed - Z.pos j) = Z.pos j).
  { rewrite digits2_pos_iter_xO, Pos2Z.inj_add, Hd.
    unfold fexp, SpecFloat.emin, prec, emax. lia. }
  assert (Hshift' : fexp prec emax (Z.pos (digits2_pos md) + ed) - ed = 0).
  { unfold fexp, SpecFloat.emin, prec, emax. lia. }
  unfold binary_round_aux, shr_fexp. simpl Zdigits2. rewrite Hshift.
  simpl shr_record_of_loc. unfold shr at 1.
  rewrite iter_pos_shr_1_exact. simpl.
  replace (ed - Z.pos j + Z.pos j) with ed by lia. rewrite Hshift'. simpl.
  destruct (Z.leb_spec ed (emax - prec)) as [_|Hgt]; [reflexivity|].
  unfold prec, emax in Hgt. lia.
Qed.

Lemma pos_iter_xO_inv (M md j : positive) :
  Z.pos M = Z.pos md * 2 ^ Z.pos j → M = Pos.iter xO md j.
Proof. rewrite <- pos_iter_xO. by intros [= ->]. Qed.

(** Rounding a value that a normal double represents gives that double. *)
Lemma binary_round_exact (sx : bool) (M md : positive) (e ed : Z) :
  Z.pos (digits2_pos md) = 53 → (-1074 ≤ ed ≤ 971)%Z →
  Z.pos M * 2 ^ (e - Z.min e ed) = Z.pos md * 2 ^ (ed - Z.min e ed) →
  binary_round prec emax sx M e = S754_finite sx md ed.
Proof.
  intros Hd He Hval. unfold binary_round.
  destruct (Z.lt_trichotomy e ed) as [Hlt|[->|Hgt]].
  - rewrite Z.min_l, Z.sub_diag, Z.mul_1_r in Hval by lia.
    destruct (ed - e) as [|j|j] eqn:Hj; try lia.
    apply pos_iter_xO_inv in Hval. subst M.
    assert (Hf : fexp prec emax (Z.pos (digits2_pos (Pos.iter xO md j)) + e) = ed).
    { rewrite digits2_pos_iter_xO, Pos2Z.inj_add, Hd.
      unfold fexp, SpecFloat.emin, prec, emax. lia. }
    rewrite Hf. unfold shl_align. rewrite Hj.
    replace e with (ed - Z.pos j) by lia.
    by apply binary_round_aux_shifted.
  - rewrite Z.min_id, Z.sub_diag, !Z.mul_1_r in Hval. injection Hval as ->.
    assert (Hf : fexp prec emax (Z.pos (digits2_pos md) + ed) = ed).
    { rewrite Hd. unfold fexp, SpecFloat.emin, prec, emax. lia. }
    rewrite Hf. unfold shl_align. rewrite Z.sub_diag.
    by apply binary_round_aux_canonical.
  - rewrite Z.min_r, Z.sub_diag, Z.mul_1_r in Hval by lia.
    destruct (e - ed) as [|d|d] eqn:Hdiff; try lia.
    symmetry in Hval. apply pos_iter_xO_inv in Hval. subst md.
    rewrite digits2_pos_iter_xO, Pos2Z.inj_add in Hd.
    assert (Hf : fexp prec emax (Z.pos (digits2_pos M) + e) = ed).
    { unfold fexp, SpecFloat.emin, prec, emax. lia. }
    rewrite Hf. unfold shl_align.
    replace (ed - e) with (Z.neg d) by lia.
    apply binary_round_aux_canonical; [|lia].
    rewrite digits2_pos_iter_xO, Pos2Z.inj_add. lia.
Qed.

Lemma digits2_pos_ge (p : positive) : 2 ^ (Z.pos (digits2_pos p) - 1) ≤ Z.pos p.
Proof.
  rewrite digits2_pos_size. pose proof (Pos.size_le p) as H.
  apply Pos2Z.pos_le_pos in H. rewrite Pos2Z.inj_pow in H.
  change (Z.pos p~0) with (2 * Z.pos p) in H.
  replace (Z.pos (Pos.size p)) with (Z.succ (Z.pos (Pos.size p) - 1)) in H by lia.
  rewrite Z.pow_succ_r in H by lia. lia.
Qed.

(** The value of a double, scaled by [2^1074]. *)
Lemma scaled_eq (a b x y : Z) :
  0 < a → 0 < b → -1074 ≤ x → -1074 ≤ y →
  a * 2 ^ (x + 1074) = b * 2 ^ (y + 1074) →
  a * 2 ^ (x - Z.min x y) = b * 2 ^ (y - Z.min x y).
Proof.
  intros Ha Hb Hx Hy Heq.
  assert (Hpx : 2 ^ (x + 1074) = 2 ^ (x - Z.min x y) * 2 ^ (Z.min x y + 1074))
    by (rewrite <- Z.pow_add_r by lia; f_equal; lia).
  assert (Hpy : 2 ^ (y + 1074) = 2 ^ (y - Z.min x y) * 2 ^ (Z.min x y + 1074))
    by (rewrite <- Z.pow_add_r by lia; f_equal; lia).
  rewrite Hpx, Hpy, !Z.mul_assoc in Heq.
  apply Z.mul_cancel_r in Heq; [exact Heq|].
  apply Z.pow_nonzero; lia.
Qed.

(** A positive integer below [2^53] converts to the normal double of that
    value. *)
Lemma nearest_double_normal (n : Z) :
  0 < n < 2 ^ 53 →
  ∃ m ex, nearest_double n = S754_finite false m ex ∧
          Z.pos (digits2_pos m) = 53 ∧ -52 ≤ ex ≤ 0 ∧
          Z.pos m = n * 2 ^ (- ex).
Proof.
  intros [Hpos Hlt]. destruct n as [|p|p]; try lia.
  unfold nearest_double. simpl. unfold binary_round, shl_align.
  pose proof (digits2_pos_le p 53 Hlt) as Hd.
  assert (Hf : fexp prec emax (Z.pos (digits2_pos p) + 0) =
               Z.pos (digits2_pos p) - 53).
  { unfold fexp, SpecFloat.emin, prec, emax. lia. }
  rewrite Hf.
  destruct (Z.pos (digits2_pos p) - 53 - 0) as [|d|d] eqn:Hs; [|lia|].
  - exists p, 0. split; [apply binary_round_aux_canonical; lia|].
    split; [lia|]. split; [lia|]. simpl. lia.
  - exists (Pos.iter xO p d), (Z.pos (digits2_pos p) - 53).
    split; [apply binary_round_aux_canonical; [|lia]|].
    { rewrite digits2_pos_iter_xO. lia. }
    split; [rewrite digits2_pos_iter_xO; lia|]. split; [lia|].
    rewrite pos_iter_xO. do 2 f_equal. lia.
Qed.

Lemma binary_round_aux_exact (sx : bool) (M : Z) (md : positive) (e ed : Z) :
  Z.pos (digits2_pos md) = 53 → (-1074 ≤ ed ≤ 971)%Z → e ≤ ed →
  M = Z.pos md * 2 ^ (ed - e) →
  binary_round_aux prec emax sx M e loc_Exact = S754_finite sx md ed.
Proof.
  intros Hd He Hle ->. destruct (ed - e) as [|j|j] eqn:Hj; try lia.
  - rewrite Z.mul_1_r. replace e with ed by lia.
    by apply binary_round_aux_canonical.
  - rewrite <- pos_iter_xO. replace e with (ed - Z.pos j) by lia.
    by apply binary_round_aux_shifted.
Qed.

Lemma shl_align_value (mx : positive) (ex ez : Z) :
  ez ≤ ex → Z.pos (fst (shl_align mx ex ez)) = Z.pos mx * 2 ^ (ex - ez).
Proof.
  intros Hle. unfold shl_align.
  destruct (ez - ex) as [|d|d] eqn:Hd; try lia; simpl.
  - replace (ex - ez) with 0 by lia. lia.
  - rewrite pos_iter_xO. do 2 f_equal. lia.
Qed.

(** The sum of two positive doubles is exact when a normal double has its
    value. *)
Lemma float_add_exact (mx my md : positive) (ex ey ed : Z) :
  -1074 ≤ ex → -1074 ≤ ey →
  Z.pos (digits2_pos md) = 53 → (-1074 ≤ ed ≤ 971)%Z →
  Z.pos mx * 2 ^ (ex + 1074) + Z.pos my * 2 ^ (ey + 1074) =
    Z.pos md * 2 ^ (ed + 1074) →
  float_add (S754_finite false mx ex) (S754_finite false my ey) =
  S754_finite false md ed.
Proof.
  intros Hex Hey Hd Hed Hval. unfold float_add, SFadd.
  set (ez := Z.min ex ey).
  pose proof (shl_align_value mx ex ez ltac:(lia)) as Hx.
  pose proof (shl_align_value my ey ez ltac:(lia)) as Hy.
  destruct (shl_align mx ex ez) as [ax ?], (shl_align my ey ez) as [ay ?].
  simpl in Hx, Hy. simpl.
  apply binary_round_exact; [done|done|].
  apply scaled_eq; try lia. rewrite Pos2Z.inj_add, Hx, Hy, <- Hval.
  rewrite Z.mul_add_distr_r, <- !Z.mul_assoc, <- !Z.pow_add_r by lia.
  do 2 f_equal; f_equal; lia.
Qed.

Lemma SFdiv_core_1000000 (mu : positive) (eu q : Z) :
  Z.pos (digits2_pos mu) = 53 → -52 ≤ eu ≤ 0 →
  Z.pos mu * 2 ^ 53 = 8589934592000000 * q →
  SFdiv_core_binary prec emax (Z.pos mu) eu 8589934592000000 (-33) =
  (q, eu - 20, loc_Exact).
Proof.
  intros Hd He Hq. unfold SFdiv_core_binary. cbn [Zdigits2]. rewrite Hd.
  change (Z.pos (digits2_pos 8589934592000000)) with 53.
  assert (He' : Z.min (fexp prec emax (53 + eu - (53 + -33))) (eu - -33) = eu - 20).
  { unfold fexp, SpecFloat.emin, prec, emax. lia. }
  rewrite He'. replace (eu - -33 - (eu - 20)) with 53 by lia.
  cbn match. rewrite Z.shiftl_mul_pow2 by lia. rewrite Hq.
  pose proof (Z_div_mod (8589934592000000 * q) 8589934592000000 ltac:(lia)) as H.
  destruct (Z.div_eucl (8589934592000000 * q) 8589934592000000) as [q' r'].
  destruct H as [H1 H2].
  assert (q' = q ∧ r' = 0) as [-> ->] by lia.
  reflexivity.
Qed.

(** [15625 * k / 1000000.0] is the normal double of [k / 64]. *)
Lemma float_div_1000000_exact (k : Z) :
  0 < k → 15625 * k < 2 ^ 53 →
  ∃ mq eq, float_div (nearest_double (15625 * k)) float_1000000 =
             S754_finite false mq eq ∧
           Z.pos (digits2_pos mq) = 53 ∧ -58 ≤ eq ≤ -6 ∧
           Z.pos mq * 2 ^ (eq + 1074) * 64 = k * 2 ^ 1074.
Proof.
  intros Hk Hlt.
  destruct (nearest_double_normal (15625 * k) ltac:(lia))
    as (mu & eu & HU & Hdu & Heu & Hmu).
  destruct (nearest_double_normal k ltac:(lia))
    as (mk & ek & _ & Hdk & Hek & Hmk).
  pose proof (digits2_pos_ge mu) as Hmu_ge. rewrite Hdu in Hmu_ge.
  pose proof (digits2_pos_gt mk) as Hmk_lt. rewrite Hdk in Hmk_lt.
  assert (Hpa : 0 < 2 ^ (- eu)) by (apply Z.pow_pos_nonneg; lia).
  assert (Hpb : 0 < 2 ^ (- ek)) by (apply Z.pow_pos_nonneg; lia).
  assert (Hexp : eu ≤ ek + 14).
  { destruct (Z.le_gt_cases eu (ek + 14)) as [|Hgt]; [done|exfalso].
    assert (2 ^ (- eu + 15) ≤ 2 ^ (- ek)) as Hpow
      by (apply Z.pow_le_mono_r; lia).
    rewrite Z.pow_add_r in Hpow by lia.
    change (2 ^ 15) with 32768 in Hpow. change (2 ^ (53 - 1)) with (2 ^ 52) in Hmu_ge.
    change (2 ^ 52) with 4503599627370496 in Hmu_ge.
    change (2 ^ 53) with 9007199254740992 in Hmk_lt. nia. }
  exists mk, (ek - 6). rewrite HU. unfold float_div, float_1000000, SFdiv.
  rewrite (SFdiv_core_1000000 mu eu (Z.pos mk * 2 ^ (ek - 6 - (eu - 20))));
    [|done|done|].
  - split; [|split; [done|split; [lia|]]].
    + apply binary_round_aux_exact; [done|lia|lia|done].
    + rewrite Hmk.
      replace (ek - 6 + 1074) with (ek + 1068) by lia.
      rewrite <- !Z.mul_assoc. f_equal.
      change 64 with (2 ^ 6). rewrite <- !Z.pow_add_r by lia. f_equal. lia.
  - rewrite Hmu, Hmk.
    replace (ek - 6 - (eu - 20)) with ((- eu) + 14 - (- ek)) by lia.
    assert (Hsplit : 2 ^ (- ek) * 2 ^ (- eu + 14 - - ek) = 2 ^ (- eu) * 2 ^ 14).
    { rewrite <- !Z.pow_add_r by lia. f_equal. lia. }
    rewrite <- (Z.mul_assoc k), Hsplit.
    change (2 ^ 53) with 9007199254740992. change (2 ^ 14) with 16384. lia.
Qed.

Lemma valid_binary_normal (m : positive) (ex : Z) :
  valid_binary prec emax (S754_finite false m ex) = true →
  (-1074 ≤ ex ≤ 971)%Z ∧
  (Z.pos (digits2_pos m) = 53 ∨ (ex = -1074 ∧ Z.pos m < 2 ^ 53)).
Proof.
  simpl. unfold bounded, canonical_mantissa, fexp, SpecFloat.emin, prec, emax.
  intros [Hc Hb%Z.leb_le]%andb_prop. apply Z.eqb_eq in Hc.
  split; [lia|].
  destruct (Z.eq_dec (Z.pos (digits2_pos m)) 53) as [|Hne]; [by left|right].
  split; [lia|]. pose proof (digits2_pos_gt m) as Hgt.
  eapply Z.lt_le_trans; [exact Hgt|]. apply Z.pow_le_mono_r; lia.
Qed.

Lemma scaled_whole (n ex : Z) :
  -52 ≤ ex ≤ 0 → n * 2 ^ (- ex) * 2 ^ (ex + 1074) = n * 2 ^ 1074.
Proof.
  intros He. rewrite <- Z.mul_assoc, <- Z.pow_add_r by lia.
  do 2 f_equal. lia.
Qed.

(** The timestamp is exact whenever a double has the value
    [sec + usec / 1000000]. *)
Lemma timestamp_exact (e : InputEvent) (d : spec_float) :
  0 ≤ sec e < 2 ^ 53 → 0 ≤ usec e < 2 ^ 53 →
  double_is d (1000000 * sec e + usec e) 1000000 →
  nominal_timestamp e = d.
Proof.
  intros Hs Hu [Hvalid Hd]. unfold nominal_timestamp.
  destruct d as [s|s| |s m ex]; try done.
  - destruct Hd as [-> Hz].
    replace (sec e) with 0 by lia. replace (usec e) with 0 by lia. reflexivity.
  - destruct s; [done|].
    apply valid_binary_normal in Hvalid as [Hex Hnorm].
    assert (HP : 0 < 2 ^ (ex + 1074)) by (apply Z.pow_pos_nonneg; lia).
    set (P := 2 ^ (ex + 1074)) in *. 
    assert (HQ : 2 ^ 73 ≤ 2 ^ 1074) by (apply Z.pow_le_mono_r; lia).
    set (Q := 2 ^ 1074) in *.
    change (2 ^ 73) with 9444732965739290427392 in HQ.
    change (2 ^ 53) with 9007199254740992 in *.
    assert (HS : 0 < 1000000 * sec e + usec e) by nia.
    destruct Hnorm as [Hdm|[-> Hsub]].
    2:{ exfalso. subst P. change (2 ^ (-1074 + 1074)) with 1 in *. nia. }
    destruct (Z.eq_dec (usec e) 0) as [Hu0|Hu0].
    + rewrite Hu0 in *. rewrite float_div_zero.
      destruct (sec e) as [|p|p] eqn:Hsec; try lia.
      change (nearest_double (Z.pos p)) with (binary_round prec emax false p 0).
      rewrite (binary_round_exact false p m 0 ex); [reflexivity|done|done|].
      apply scaled_eq; lia.
    + assert (Hdiv : (15625 | usec e)).
      { apply (Z.gauss 15625 Q); [|reflexivity].
        exists (64 * (Z.pos m * P - sec e * Q)). lia. }
      destruct Hdiv as [k Hk]. rewrite Hk in *.
      replace (k * 15625) with (15625 * k) in * by lia.
      destruct (float_div_1000000_exact k ltac:(lia) ltac:(lia))
        as (mq & eq & HQf & Hdq & Heq & Hvq).
      rewrite HQf. fold Q in Hvq.
      assert (HPq : 0 < 2 ^ (eq + 1074)) by (apply Z.pow_pos_nonneg; lia).
      set (Pq := 2 ^ (eq + 1074)) in *.
      destruct (Z.eq_dec (sec e) 0) as [Hs0|Hs0].
      * rewrite Hs0 in *. change (nearest_double 0) with (S754_zero false).
        change (float_add (S754_zero false) (S754_finite false mq eq))
          with (S754_finite false mq eq).
        rewrite <- (binary_round_exact false mq mq eq eq) by (done || lia).
        apply binary_round_exact; [done|done|].
        apply scaled_eq; lia.
      * destruct (nearest_double_normal (sec e) ltac:(lia))
          as (ms & es & HSf & Hds & Hes & Hms).
        rewrite HSf. apply float_add_exact; try lia; try done.
        rewrite Hms, scaled_whole by done. fold P Pq Q. lia.
Qed.

(** ** The timestamp *)

(** C7: for [sec] and [usec] that fit in 64 bits, [timestamp] raises nothing
    and returns [sec + usec / 1000000.0] evaluated in binary64 arithmetic;
    for [sec] and [usec] that are themselves doubles (below [2^53]), the
    result is exact whenever a double has the value [sec + usec / 1000000]. *)
Theorem C7_timestamp (e : InputEvent) :
  Z.abs (sec e) < 2 ^ 64 → Z.abs (usec e) < 2 ^ 64 →
  timestamp e = Ok (nominal_timestamp e) ∧
  (∀ d, 0 ≤ sec e < 2 ^ 53 → 0 ≤ usec e < 2 ^ 53 →
        double_is d (1000000 * sec e + usec e) 1000000 →
        timestamp e = Ok d).
Proof.
  intros Hs Hu. pose proof (timestamp_ok e Hs Hu) as Hts.
  split; [exact Hts|]. intros d Hs' Hu' Hd.
  rewrite Hts. f_equal. by apply timestamp_exact.
Qed.

(** C7 at 1337197425 seconds and a half: the timestamp is the double
    [1337197425.5]. *)
Lemma C7_timestamp_witness :
  let e := mkInputEvent 1337197425 500000 1 28 0 in
  let d := S754_finite false 5608612510564352 (-22) in
  Z.abs (sec e) < 2 ^ 64 ∧ Z.abs (usec e) < 2 ^ 64 ∧
  0 ≤ sec e < 2 ^ 53 ∧ 0 ≤ usec e < 2 ^ 53 ∧
  double_is d (1000000 * sec e + usec e) 1000000 ∧
  timestamp e = Ok (nominal_timestamp e) ∧ timestamp e = Ok d.
Proof.
  intros e d.
  assert (Hs : Z.abs (sec e) < 2 ^ 64) by (vm_compute; reflexivity).
  assert (Hu : Z.abs (usec e) < 2 ^ 64) by (vm_compute; reflexivity).
  assert (Hs' : 0 ≤ sec e < 2 ^ 53) by (simpl; lia).
  assert (Hu' : 0 ≤ usec e < 2 ^ 53) by (simpl; lia).
  assert (Hd : double_is d (1000000 * sec e + usec e) 1000000)
    by (split; vm_compute; reflexivity).
  destruct (C7_timestamp e Hs Hu) as [Hts Hexact].
  split; [exact Hs|]. split; [exact Hu|]. split; [exact Hs'|].
  split; [exact Hu'|]. split; [exact Hd|]. split; [exact Hts|].
  exact (Hexact d Hs' Hu' Hd).
Defined.

(** The timestamp of the documented event, 1337197425.477835, is the double
    [5608612510471385 * 2^-22]. *)
Example timestamp_enter_up :
  timestamp enter_up = Ok (S754_finite false 5608612510471385 (-22)).
Proof. vm_compute. reflexivity. Qed.

(** A [usec] above [2^53] need not be a double: here the exact value
    19327352832.03125 is a double, but [usec] is rounded before the
    division and the timestamp is the double below it. *)
Example timestamp_inexact_operand :
  let e := mkInputEvent 0 19327352832031250 1 28 0 in
  double_is (S754_finite false 5066549580800000 (-18))
    (1000000 * sec e + usec e) 1000000 ∧
  timestamp e = Ok (S754_finite false 5066549580799999 (-18)).
Proof. split; [split|]; vm_compute; reflexivity. Qed.

(** Beyond the range of a double the conversion of an operand fails. *)
Example timestamp_overflow :
  timestamp (mkInputEvent (2 ^ 1024) 0 1 28 0) = Raise OverflowError.
Proof. vm_compute. reflexivity. Qed.

(** ** Display *)

Lemma format_obj_f (x : spec_float) : format_obj "f" (Float x) = Ok (fixed6 x).
Proof.
  unfold fixed6, format_obj.
  change (parse_fspec "f") with (Some (FSpec false 0 None (Some "f"%char))).
  unfold format_float. simpl fs_type. simpl fs_prec. simpl default.
  by destruct (float_fixed 6 x).
Qed.

Lemma format_obj_02d (n : Z) : format_obj "02d" (Int n) = Ok (dec02 n).
Proof. reflexivity. Qed.

Lemma format_obj_int (n : Z) : format_obj EmptyString (Int n) = Ok (int_str n).
Proof. reflexivity. Qed.

Lemma format_obj_names (k : names) :
  format_obj EmptyString (names_obj k) = Ok (names_str k).
Proof. by destruct k. Qed.

(** Evaluates the scan of a literal template and unfolds [render] on it. *)
Ltac render_template :=
  unfold format;
  match goal with
  | |- context [scan ?t None] =>
      let items := eval vm_compute in (scan t None) in
      change (scan t None) with items
  end;
  cbn [render];
  rewrite ?format_obj_f, ?format_obj_02d, ?format_obj_int, ?format_obj_names.

Lemma format_InputEvent (ts : spec_float) (c t v : Z) :
  format "event at {:f}, code {:02d}, type {:02d}, val {:02d}"
    [Float ts; Int c; Int t; Int v] =
  Ok ("event at " +:+ fixed6 ts +:+ ", code " +:+ dec02 c +:+
      ", type " +:+ dec02 t +:+ ", val " +:+ dec02 v).
Proof.
  render_template.
  transitivity (Ok ("event at " +:+ fixed6 ts +:+ ", code " +:+ dec02 c +:+
                    ", type " +:+ dec02 t +:+ ", val " +:+ dec02 v +:+
                    EmptyString)); [reflexivity|].
  by rewrite app_nil_r.
Qed.

Lemma format_KeyEvent (ts : spec_float) (sc : Z) (k : names) (ks : string) :
  format "key event at {:f}, {} ({}), {}"
    [Float ts; Int sc; names_obj k; Str ks] =
  Ok ("key event at " +:+ fixed6 ts +:+ ", " +:+ int_str sc +:+ " (" +:+
      names_str k +:+ "), " +:+ ks).
Proof.
  render_template.
  transitivity (Ok ("key event at " +:+ fixed6 ts +:+ ", " +:+ int_str sc +:+
                    " (" +:+ names_str k +:+ "), " +:+ ks +:+ EmptyString));
    [reflexivity|].
  by rewrite app_nil_r.
Qed.

Lemma format_RelEvent (ts : spec_float) (k : names) (v : Z) :
  format "relative axis event at {:f}, {} {} " [Float ts; names_obj k; Int v] =
  Ok ("relative axis event at " +:+ fixed6 ts +:+ ", " +:+ names_str k +:+
      " " +:+ int_str v +:+ " ").
Proof. render_template. reflexivity. Qed.

Lemma format_AbsEvent (ts : spec_float) (k : names) (v : Z) :
  format "absolute axis event at {:f}, {} {} " [Float ts; names_obj k; Int v] =
  Ok ("absolute axis event at " +:+ fixed6 ts +:+ ", " +:+ names_str k +:+
      " " +:+ int_str v +:+ " ").
Proof. render_template. reflexivity. Qed.

Lemma format_SynEvent (ts : spec_float) (k : names) :
  format "synchronization event at {:f}, {} " [Float ts; names_obj k] =
  Ok ("synchronization event at " +:+ fixed6 ts +:+ ", " +:+ names_str k +:+
      " ").
Proof. render_template. reflexivity. Qed.

(** C9: for an event whose [sec] and [usec] fit in 64 bits, the timestamp is
    computed without error and the four display strings are the documented
    labels around the formatted fields, in the documented order; those of
    [RelEvent], [AbsEvent] and [SynEvent] end with a space. *)
Theorem C9_display_strings (e : InputEvent) (kc : names) :
  Z.abs (sec e) < 2 ^ 64 → Z.abs (usec e) < 2 ^ 64 →
  ∃ ts, timestamp e = Ok ts ∧
    InputEvent_str e =
      Ok ("event at " +:+ fixed6 ts +:+ ", code " +:+ dec02 (code e) +:+
          ", type " +:+ dec02 (type e) +:+ ", val " +:+ dec02 (value e)) ∧
    RelEvent.str (RelEvent.mk e kc) =
      Ok ("relative axis event at " +:+ fixed6 ts +:+ ", " +:+ names_str kc +:+
          " " +:+ int_str (value e) +:+ " ") ∧
    AbsEvent.str (AbsEvent.mk e kc) =
      Ok ("absolute axis event at " +:+ fixed6 ts +:+ ", " +:+ names_str kc +:+
          " " +:+ int_str (value e) +:+ " ") ∧
    SynEvent.str (SynEvent.mk e kc) =
      Ok ("synchronization event at " +:+ fixed6 ts +:+ ", " +:+
          names_str kc +:+ " ").
Proof.
  intros Hs Hu. pose proof (timestamp_ok e Hs Hu) as Hts.
  exists (nominal_timestamp e). split; [exact Hts|].
  unfold InputEvent_str, RelEvent.str, AbsEvent.str, SynEvent.str.
  cbn [RelEvent.event RelEvent.keycode AbsEvent.event AbsEvent.keycode
       SynEvent.event SynEvent.keycode].
  rewrite Hts. cbn [mbind res_bind].
  rewrite format_InputEvent, format_RelEvent, format_AbsEvent, format_SynEvent.
  repeat split.
Qed.

(** C9 at the event of the module docstring. *)
Lemma C9_display_strings_witness :
  let e := mkInputEvent 1337197425 477827 4 4 458792 in
  let kc := Name "REL_X" in
  Z.abs (sec e) < 2 ^ 64 ∧ Z.abs (usec e) < 2 ^ 64 ∧
  ∃ ts, timestamp e = Ok ts ∧
    InputEvent_str e =
      Ok ("event at " +:+ fixed6 ts +:+ ", code " +:+ dec02 (code e) +:+
          ", type " +:+ dec02 (type e) +:+ ", val " +:+ dec02 (value e)) ∧
    RelEvent.str (RelEvent.mk e kc) =
      Ok ("relative axis event at " +:+ fixed6 ts +:+ ", " +:+ names_str kc +:+
          " " +:+ int_str (value e) +:+ " ") ∧
    AbsEvent.str (AbsEvent.mk e kc) =
      Ok ("absolute axis event at " +:+ fixed6 ts +:+ ", " +:+ names_str kc +:+
          " " +:+ int_str (value e) +:+ " ") ∧
    SynEvent.str (SynEvent.mk e kc) =
      Ok ("synchronization event at " +:+ fixed6 ts +:+ ", " +:+
          names_str kc +:+ " ").
Proof.
  intros e kc.
  assert (Hs : Z.abs (sec e) < 2 ^ 64) by (vm_compute; reflexivity).
  assert (Hu : Z.abs (usec e) < 2 ^ 64) by (vm_compute; reflexivity).
  split; [exact Hs|]. split; [exact Hu|].
  exact (C9_display_strings e kc Hs Hu).
Defined.

(** The documented display of a generic event, and displays of the three
    other classes on the same timestamp. *)
Example display_samples :
  InputEvent_str (mkInputEvent 1337197425 477827 4 4 458792) =
    Ok "event at 1337197425.477827, code 04, type 04, val 458792" ∧
  RelEvent.str (RelEvent.mk (mkInputEvent 1337197425 477827 2 0 (-5))
                  (Name "REL_X")) =
    Ok "relative axis event at 1337197425.477827, REL_X -5 " ∧
  AbsEvent.str (AbsEvent.mk (mkInputEvent 1337197425 477827 3 0 7)
                  (Name "ABS_X")) =
    Ok "absolute axis event at 1337197425.477827, ABS_X 7 " ∧
  SynEvent.str (SynEvent.mk (mkInputEvent 1337197425 477827 0 0 0)
                  (Name "SYN_REPORT")) =
    Ok "synchronization event at 1337197425.477827, SYN_REPORT ".
Proof. vm_compute. repeat split. Qed.

(** ** The display of a key event *)

Lemma state_lookup (s : Z) :
  try_except
    (i ← slot_get "keystate" (Some s);
     tuple_getitem ["up"; "down"; "hold"]%string i)
    is_IndexError (λ _, Ok "unknown"%string) = Ok (state_text s).
Proof.
  destruct (decide (-3 ≤ s ≤ 2)) as [Hin|Hout].
  - assert (s = -3 ∨ s = -2 ∨ s = -1 ∨ s = 0 ∨ s = 1 ∨ s = 2) as Hc by lia.
    repeat (destruct Hc as [->|Hc]; [reflexivity|]). by subst.
  - assert (state_text s = "unknown"%string) as ->.
    { unfold state_text.
      repeat match goal with
             | |- context [s =? ?c] => destruct (Z.eqb_spec s c); [lia|]
             end.
      reflexivity. }
    cbn [slot_get mbind res_bind]. unfold tuple_getitem. simpl length.
    destruct (Z.ltb_spec s 0).
    + destruct (Z.ltb_spec (s + Z.of_nat 3) 0); [reflexivity|lia].
    + destruct (Z.ltb_spec s 0); [lia|].
      destruct (Z.leb_spec (Z.of_nat 3) s); [reflexivity|lia].
Qed.

(** The display of any instance whose [keystate] slot holds an integer. *)
Lemma KeyEvent_str_assigned (k : KeyEvent.t) (s : Z) :
  KeyEvent.keystate k = Some s →
  Z.abs (sec (KeyEvent.event k)) < 2 ^ 64 →
  Z.abs (usec (KeyEvent.event k)) < 2 ^ 64 →
  KeyEvent.str k =
  Ok ("key event at " +:+ fixed6 (nominal_timestamp (KeyEvent.event k)) +:+
      ", " +:+ int_str (KeyEvent.scancode k) +:+ " (" +:+
      names_str (KeyEvent.keycode k) +:+ "), " +:+ state_text s).
Proof.
  intros Hs Hsec Husec. unfold KeyEvent.str.
  rewrite Hs, state_lookup, (timestamp_ok _ Hsec Husec).
  cbn [mbind res_bind]. apply format_KeyEvent.
Qed.

(** X1: a key event built from an event whose value is 0, 1 or 2 (with
    [sec] and [usec] in 64 bits) displays as [key event at], the timestamp
    with six decimals, the scancode, the keycode in parentheses, and [up],
    [down] or [hold] according to the value. *)
Theorem X1_key_display (keys : gmap Z names) (e : InputEvent) (au : bool)
    (k : KeyEvent.t) :
  KeyEvent.init keys e au = Ok k →
  Z.abs (sec e) < 2 ^ 64 → Z.abs (usec e) < 2 ^ 64 →
  value e = 0 ∨ value e = 1 ∨ value e = 2 →
  KeyEvent.str k =
  Ok ("key event at " +:+ fixed6 (nominal_timestamp e) +:+ ", " +:+
      int_str (code e) +:+ " (" +:+ names_str (KeyEvent.keycode k) +:+ "), " +:+
      (if value e =? 0 then "up" else if value e =? 1 then "down" else "hold")).
Proof.
  intros Hk Hsec Husec Hv.
  pose proof (KeyEvent_init_keystate _ _ _ _ Hk) as Hstate.
  assert (KeyEvent.event k = e ∧ KeyEvent.scancode k = code e) as [He Hsc].
  { rewrite KeyEvent_init_eq in Hk.
    destruct (keys !! code e); [|destruct au]; by simplify_eq. }
  rewrite (KeyEvent_str_assigned k (value e)); rewrite ?He; try done.
  - rewrite Hsc. do 9 f_equal.
    destruct Hv as [-> | [-> | ->]]; reflexivity.
  - rewrite Hstate. by destruct Hv as [-> | [-> | ->]].
Qed.

(** X1 at the documented event. *)
Lemma X1_key_display_witness :
  KeyEvent.str (KeyEvent.mk 28 (Name "KEY_ENTER") (Some 0) enter_up) =
  Ok ("key event at " +:+ fixed6 (nominal_timestamp enter_up) +:+ ", " +:+
      int_str (code enter_up) +:+ " (" +:+ names_str (Name "KEY_ENTER") +:+
      "), " +:+ "up").
Proof.
  apply (X1_key_display enter_keys enter_up false
           (KeyEvent.mk 28 (Name "KEY_ENTER") (Some 0) enter_up) eq_refl);
    [vm_compute; reflexivity|vm_compute; reflexivity|left; reflexivity].
Defined.

(** X2: the slots of a key event can be assigned after construction;
    whatever integer [keystate] then holds, the display succeeds: the
    indices 0, 1, 2 and, counted from the end, -3, -2, -1 show [up], [down],
    [hold], and every other integer shows [unknown]. *)
Theorem X2_key_display_any_state (k : KeyEvent.t) (s : Z) :
  KeyEvent.keystate k = Some s →
  Z.abs (sec (KeyEvent.event k)) < 2 ^ 64 →
  Z.abs (usec (KeyEvent.event k)) < 2 ^ 64 →
  ∃ text,
    KeyEvent.str k =
      Ok ("key event at " +:+ fixed6 (nominal_timestamp (KeyEvent.event k)) +:+
          ", " +:+ int_str (KeyEvent.scancode k) +:+ " (" +:+
          names_str (KeyEvent.keycode k) +:+ "), " +:+ text) ∧
    (s = 0 ∨ s = -3 → text = "up"%string) ∧
    (s = 1 ∨ s = -2 → text = "down"%string) ∧
    (s = 2 ∨ s = -1 → text = "hold"%string) ∧
    (s < -3 ∨ 2 < s → text = "unknown"%string).
Proof.
  intros Hs Hsec Husec. exists (state_text s).
  split; [by apply KeyEvent_str_assigned|].
  unfold state_text.
  repeat split; intros Hc;
    repeat match goal with
           | |- context [s =? ?c] => destruct (Z.eqb_spec s c); try lia
           end;
    reflexivity.
Qed.

(** X2 at a slot holding -1, which shows [hold]. *)
Lemma X2_key_display_any_state_witness :
  ∃ text,
    KeyEvent.str (KeyEvent.mk 28 (Name "KEY_ENTER") (Some (-1)) enter_up) =
      Ok ("key event at " +:+ fixed6 (nominal_timestamp enter_up) +:+
          ", " +:+ int_str 28 +:+ " (" +:+
          names_str (Name "KEY_ENTER") +:+ "), " +:+ text) ∧
    (-1 = 0 ∨ -1 = -3 → text = "up"%string) ∧
    (-1 = 1 ∨ -1 = -2 → text = "down"%string) ∧
    (-1 = 2 ∨ -1 = -1 → text = "hold"%string) ∧
    (-1 < -3 ∨ 2 < -1 → text = "unknown"%string).
Proof.
  apply (X2_key_display_any_state
           (KeyEvent.mk 28 (Name "KEY_ENTER") (Some (-1)) enter_up) (-1) eq_refl);
    vm_compute; reflexivity.
Defined.

(** ** Construction and the wrapped event *)

Lemma construct_default (c : class) table e (au : option bool) :
  construct c table e au =
  construct c table e (Some (default (class_default c) au)).
Proof. by destruct au. Qed.

(** X3: an instance keeps the event it was built from (and a key event its
    code as scancode), so building again from the event held by the instance,
    on the same table with the same [allow_unknown], gives the same
    instance. *)
Theorem X3_rebuild_from_instance (c : class) (table : gmap Z names)
    (e : InputEvent) (au : option bool) (i : instance) :
  construct c table e au = Ok i →
  instance_class i = c ∧ instance_event i = e ∧
  (∀ k, i = IKey k → KeyEvent.scancode k = code e) ∧
  construct c table (instance_event i) au = Ok i.
Proof.
  intros Hi.
  assert (instance_class i = c ∧ instance_event i = e ∧
          (∀ k, i = IKey k → KeyEvent.scancode k = code e)) as (Hc & He & Hk).
  { rewrite construct_default, construct_eq in Hi.
    destruct (table !! code e);
      [|destruct (default (class_default c) au); [|discriminate]];
      injection Hi as <-; destruct c; repeat split; intros ? [= <-];
      reflexivity. }
  repeat split; try done. by rewrite He.
Qed.

(** X3 at the documented key event. *)
Lemma X3_rebuild_from_instance_witness :
  let i := IKey (KeyEvent.mk 28 (Name "KEY_ENTER") (Some 0) enter_up) in
  instance_class i = KeyEventC ∧ instance_event i = enter_up ∧
  (∀ k, i = IKey k → KeyEvent.scancode k = code enter_up) ∧
  construct KeyEventC enter_keys (instance_event i) None = Ok i.
Proof.
  intros i. apply (X3_rebuild_from_instance KeyEventC enter_keys enter_up None).
  reflexivity.
Defined.

(** ** Unknown codes *)

Lemma fallback_keycode_inj (c1 c2 : Z) :
  0 ≤ c1 → 0 ≤ c2 → fallback_keycode c1 = fallback_keycode c2 → c1 = c2.
Proof.
  intros H1 H2 Heq.
  apply (f_equal (λ n, match n with
                       | Name (String _ (String _ h)) => upper_hex_value h 0
                       | _ => None
                       end)) in Heq.
  change (upper_hex_value
            (pad_number true 2 (c1 <? 0) (int_digits true 16 (Z.abs c1))) 0 =
          upper_hex_value
            (pad_number true 2 (c2 <? 0) (int_digits true 16 (Z.abs c2))) 0)
    in Heq.
  destruct (pad_hex_width2 c1 H1) as [Hv1 _].
  destruct (pad_hex_width2 c2 H2) as [Hv2 _].
  congruence.
Qed.

Lemma construct_fallback (c : class) table e i :
  table !! code e = None → construct c table e (Some true) = Ok i →
  instance_keycode i = fallback_keycode (code e).
Proof.
  intros Hnone. rewrite construct_eq, Hnone. intros [= <-]. by destruct c.
Qed.

(** X4: with [allow_unknown], two unknown codes get the same keycode only if
    they are the same code, whatever the classes and tables: the fallback
    text identifies the (non-negative) code. *)
Theorem X4_unknown_codes_distinguished (c1 c2 : class)
    (t1 t2 : gmap Z names) (e1 e2 : InputEvent) (i1 i2 : instance) :
  t1 !! code e1 = None → t2 !! code e2 = None →
  0 ≤ code e1 → 0 ≤ code e2 →
  construct c1 t1 e1 (Some true) = Ok i1 →
  construct c2 t2 e2 (Some true) = Ok i2 →
  instance_keycode i1 = instance_keycode i2 → code e1 = code e2.
Proof.
  intros Hn1 Hn2 Hc1 Hc2 Hi1 Hi2 Heq.
  rewrite (construct_fallback _ _ _ _ Hn1 Hi1),
    (construct_fallback _ _ _ _ Hn2 Hi2) in Heq.
  by apply fallback_keycode_inj.
Qed.

(** X4 at the unknown code 29, as a key and as a relative axis. *)
Lemma X4_unknown_codes_distinguished_witness :
  code code29 = code (mkInputEvent 0 0 2 29 0).
Proof.
  apply (X4_unknown_codes_distinguished KeyEventC RelEventC enter_keys
           (REL linux_ecodes) code29 (mkInputEvent 0 0 2 29 0)
           (IKey (KeyEvent.mk 29 (Name "0x1D") (Some 1) code29))
           (IRel (RelEvent.mk (mkInputEvent 0 0 2 29 0) (Name "0x1D"))));
    try reflexivity; simpl; lia.
Defined.

(** ** The dispatch table *)

(** X5: [event_factory] registers the four event types and no other; the
    type written last, [EV_SYN], always maps to [SynEvent], and when the
    four types are distinct the table has four entries, one class per
    type. *)
Theorem X5_event_factory_entries (ec : ecodes) :
  (∀ ty, is_Some (event_factory ec !! ty) ↔
         ty = EV_KEY ec ∨ ty = EV_REL ec ∨ ty = EV_ABS ec ∨ ty = EV_SYN ec) ∧
  event_factory ec !! EV_SYN ec = Some SynEventC ∧
  (NoDup [EV_KEY ec; EV_REL ec; EV_ABS ec; EV_SYN ec] →
   event_factory ec !! EV_KEY ec = Some KeyEventC ∧
   event_factory ec !! EV_REL ec = Some RelEventC ∧
   event_factory ec !! EV_ABS ec = Some AbsEventC ∧
   size (event_factory ec) = 4%nat).
Proof.
  split; [|split].
  - intros ty. rewrite event_factory_lookup. split.
    + intros [cl Hcl]. repeat case_decide; subst; auto. discriminate.
    + intros [-> | [-> | [-> | ->]]]; repeat case_decide;
        try (by apply mk_is_Some with (x := SynEventC));
        try (by apply mk_is_Some with (x := AbsEventC));
        try (by apply mk_is_Some with (x := RelEventC));
        try (by apply mk_is_Some with (x := KeyEventC)); congruence.
  - rewrite event_factory_lookup. by rewrite decide_True.
  - intros Hnd.
    assert (EV_KEY ec ≠ EV_REL ec ∧ EV_KEY ec ≠ EV_ABS ec ∧
            EV_KEY ec ≠ EV_SYN ec ∧ EV_REL ec ≠ EV_ABS ec ∧
            EV_REL ec ≠ EV_SYN ec ∧ EV_ABS ec ≠ EV_SYN ec) as (?&?&?&?&?&?).
    { apply NoDup_cons in Hnd as [Hk Hnd].
      apply NoDup_cons in Hnd as [Hr Hnd]. apply NoDup_cons in Hnd as [Ha _].
      set_solver. }
    rewrite !event_factory_lookup.
    split; [by rewrite !decide_False, decide_True by congruence|].
    split; [by rewrite !decide_False, decide_True by congruence|].
    split; [by rewrite decide_False, decide_True by congruence|].
    unfold event_factory.
    rewrite map_size_insert_None
      by (by rewrite !lookup_insert_ne, lookup_empty by congruence).
    rewrite map_size_insert_None
      by (by rewrite !lookup_insert_ne, lookup_empty by congruence).
    rewrite map_size_insert_None
      by (by rewrite lookup_insert_ne, lookup_empty by congruence).
    rewrite map_size_insert_None by apply lookup_empty.
    by rewrite map_size_empty.
Qed.

(** X5 at the event types of [linux/input.h]. *)
Lemma X5_event_factory_entries_witness :
  event_factory linux_ecodes !! EV_KEY linux_ecodes = Some KeyEventC ∧
  event_factory linux_ecodes !! EV_REL linux_ecodes = Some RelEventC ∧
  event_factory linux_ecodes !! EV_ABS linux_ecodes = Some AbsEventC ∧
  size (event_factory linux_ecodes) = 4%nat.
Proof.
  apply (X5_event_factory_entries linux_ecodes). exact linux_ecodes_distinct.
Defined.

(** ** The accuracy of the timestamp *)

Lemma shr_1_div2 (mrs : shr_record) :
  0 ≤ shr_m mrs → shr_m (shr_1 mrs) = shr_m mrs / 2.
Proof.
  destruct mrs as [m r s]. cbn [shr_m]. intros Hm.
  destruct m as [|[p|p|]|p]; cbn [shr_1 shr_m]; try lia.
  - reflexivity.
  - apply Z.div_unique with (r := 1); [lia|]. rewrite Pos2Z.inj_xI. lia.
  - apply Z.div_unique with (r := 0); [lia|]. rewrite Pos2Z.inj_xO. lia.
  - reflexivity.
Qed.

Lemma iter_pos_shr_1_div (p : positive) (mrs : shr_record) :
  0 ≤ shr_m mrs →
  shr_m (SpecFloat.iter_pos shr_1 p mrs) = shr_m mrs / 2 ^ Z.pos p.
Proof.
  revert mrs. induction p as [p IH|p IH|]; intros mrs Hm; simpl SpecFloat.iter_pos.
  - pose proof (shr_1_m mrs Hm) as H1.
    pose proof (iter_pos_shr_1_m p (shr_1 mrs) ltac:(lia)) as H2.
    rewrite IH, IH, shr_1_div2 by lia.
    rewrite !Z.div_div by (try apply Z.pow_pos_nonneg; lia).
    f_equal. rewrite Pos2Z.inj_xI, <- Z.pow_add_r, <- Z.pow_succ_r by lia.
    f_equal. lia.
  - pose proof (iter_pos_shr_1_m p mrs Hm) as H2.
    rewrite IH, IH by lia.
    rewrite !Z.div_div by (try apply Z.pow_pos_nonneg; lia).
    f_equal. rewrite Pos2Z.inj_xO, <- Z.pow_add_r by lia. f_equal. lia.
  - by apply shr_1_div2.
Qed.

(** The shift to the canonical exponent divides the mantissa. *)
Lemma shr_fexp_value (m e : Z) (l : location) (mrs : shr_record) (e' : Z) :
  0 ≤ m → shr_fexp prec emax m e l = (mrs, e') →
  e' = Z.max e (fexp prec emax (Zdigits2 m + e)) ∧
  shr_m mrs = m / 2 ^ (e' - e).
Proof.
  intros Hm. unfold shr_fexp, shr.
  destruct (fexp prec emax (Zdigits2 m + e) - e) as [|p|p] eqn:Hd;
    intros [= <- <-].
  - rewrite shr_record_of_loc_m, Z.sub_diag, Z.div_1_r. lia.
  - rewrite iter_pos_shr_1_div by (rewrite shr_record_of_loc_m; lia).
    rewrite shr_record_of_loc_m. split; [lia|]. do 2 f_equal. lia.
  - rewrite shr_record_of_loc_m, Z.sub_diag, Z.div_1_r. lia.
Qed.

(** Rounding stays in the interval of two neighbouring multiples of the
    unit in the last place that holds the mantissa. *)
Lemma binary_round_aux_enclosed (sx : bool) (mx : positive) (ex : Z)
    (lx : location) :
  -1074 ≤ ex ≤ 900 → Z.pos (digits2_pos mx) + ex ≤ 1000 →
  ∃ mf ef w lo,
    binary_round_aux prec emax sx (Z.pos mx) ex lx = S754_finite sx mf ef ∧
    w = Z.max ex (Z.pos (digits2_pos mx) + ex - 53) ∧ w ≤ ef ≤ w + 1 ∧
    lo ≤ Z.pos mx < lo + 2 ^ (w - ex) ∧
    lo ≤ Z.pos mf * 2 ^ (ef - ex) ≤ lo + 2 ^ (w - ex).
Proof.
  intros Hex HD.
  pose proof (digits2_pos_gt mx) as Hgt. pose proof (digits2_pos_ge mx) as Hge.
  set (D := Z.pos (digits2_pos mx)) in *.
  unfold binary_round_aux.
  destruct (shr_fexp prec emax (Z.pos mx) ex lx) as [mrs1 e1] eqn:H1.
  apply shr_fexp_value in H1 as [He1 Hm1]; [|lia].
  assert (Hw : e1 = Z.max ex (D + ex - 53)).
  { rewrite He1. cbn [Zdigits2]. fold D.
    unfold fexp, SpecFloat.emin, prec, emax. lia. }
  clear He1.
  assert (Hs : 0 ≤ e1 - ex) by lia.
  assert (HP : 0 < 2 ^ (e1 - ex)) by (apply Z.pow_pos_nonneg; lia).
  assert (Hup : 2 ^ D ≤ 2 ^ 53 * 2 ^ (e1 - ex)).
  { rewrite <- Z.pow_add_r by lia. apply Z.pow_le_mono_r; lia. }
  assert (Hlow : 2 ^ (e1 - ex) ≤ 2 ^ (D - 1)).
  { apply Z.pow_le_mono_r; lia. }
  set (P := 2 ^ (e1 - ex)) in *.
  assert (Hm1lt : shr_m mrs1 < 2 ^ 53).
  { rewrite Hm1. apply Z.div_lt_upper_bound; lia. }
  assert (Hm1ge : 1 ≤ shr_m mrs1).
  { rewrite Hm1. apply Z.div_le_lower_bound; lia. }
  pose proof (Z.div_mod (Z.pos mx) P ltac:(lia)) as Hdm.
  pose proof (Z.mod_pos_bound (Z.pos mx) P ltac:(lia)) as Hmb.
  rewrite <- Hm1 in Hdm.
  pose proof (round_nearest_even_bounds (shr_m mrs1) (loc_of_shr_record mrs1))
    as Hr.
  set (r := round_nearest_even (shr_m mrs1) (loc_of_shr_record mrs1)) in *.
  destruct (shr_fexp prec emax r e1 loc_Exact) as [mrs2 e2] eqn:H2.
  apply shr_fexp_value in H2 as [He2 Hm2]; [|lia].
  destruct r as [|rp|rp] eqn:Hrp; try lia.
  cbn [Zdigits2] in He2.
  assert (HDr : Z.pos (digits2_pos rp) ≤ 54).
  { apply digits2_pos_le. change (2 ^ 54) with (2 * 2 ^ 53). lia. }
  destruct (Z.le_gt_cases (Z.pos (digits2_pos rp)) 53) as [Hsmall|Hbig].
  - assert (e2 = e1) as ->.
    { rewrite He2. unfold fexp, SpecFloat.emin, prec, emax. lia. }
    rewrite Z.sub_diag, Z.div_1_r in Hm2. rewrite Hm2.
    destruct (Z.leb_spec e1 (emax - prec)) as [_|Hbad];
      [|unfold prec, emax in Hbad; lia].
    exists rp, e1, e1, (shr_m mrs1 * P).
    split; [reflexivity|]. split; [exact Hw|]. split; [lia|].
    fold P. split; nia.
  - pose proof (digits2_pos_ge rp) as Hrge.
    assert (Z.pos (digits2_pos rp) = 54) as Hd54 by lia.
    rewrite Hd54 in Hrge, He2. change (2 ^ (54 - 1)) with (2 ^ 53) in Hrge.
    assert (Z.pos rp = 2 ^ 53) as Hr53 by lia.
    assert (e2 = e1 + 1) as ->.
    { rewrite He2. unfold fexp, SpecFloat.emin, prec, emax. lia. }
    replace (e1 + 1 - e1) with 1 in Hm2 by lia.
    rewrite Hr53 in Hm2. change (2 ^ 53 / 2 ^ 1) with (Z.pos 4503599627370496) in Hm2.
    rewrite Hm2.
    destruct (Z.leb_spec (e1 + 1) (emax - prec)) as [_|Hbad];
      [|unfold prec, emax in Hbad; lia].
    exists 4503599627370496%positive, (e1 + 1), e1, (shr_m mrs1 * P).
    split; [reflexivity|]. split; [exact Hw|]. split; [lia|].
    fold P. split; [nia|].
    replace (e1 + 1 - ex) with (1 + (e1 - ex)) by lia.
    rewrite Z.pow_add_r by lia. fold P.
    change (2 ^ 1) with 2. change (2 ^ 53) with 9007199254740992 in *. nia.
Qed.

Lemma SFdiv_core_1000000_quotient (mu : positive) (eu : Z) :
  Z.pos (digits2_pos mu) = 53 → -52 ≤ eu ≤ 0 →
  ∃ q r,
    SFdiv_core_binary prec emax (Z.pos mu) eu 8589934592000000 (-33) =
      (q, eu - 20, new_location 8589934592000000 r) ∧
    Z.pos mu * 2 ^ 53 = 8589934592000000 * q + r ∧
    0 ≤ r < 8589934592000000.
Proof.
  intros Hd He. unfold SFdiv_core_binary. cbn [Zdigits2]. rewrite Hd.
  change (Z.pos (digits2_pos 8589934592000000)) with 53.
  assert (He' : Z.min (fexp prec emax (53 + eu - (53 + -33))) (eu - -33) = eu - 20).
  { unfold fexp, SpecFloat.emin, prec, emax. lia. }
  rewrite He'. replace (eu - -33 - (eu - 20)) with 53 by lia.
  cbn match. rewrite Z.shiftl_mul_pow2 by lia.
  pose proof (Z_div_mod (Z.pos mu * 2 ^ 53) 8589934592000000 ltac:(lia)) as H.
  destruct (Z.div_eucl (Z.pos mu * 2 ^ 53) 8589934592000000) as [q r].
  exists q, r. destruct H as [H1 H2]. done.
Qed.

(** [usec / 1000000.0] is within two units in the last place of the
    quotient, and below 1. *)
Lemma float_div_1000000_near (u : Z) :
  0 < u < 1000000 →
  ∃ mq eq,
    float_div (nearest_double u) float_1000000 = S754_finite false mq eq ∧
    -72 ≤ eq ≤ -51 ∧
    - 2000000 ≤ Z.pos mq * 1000000 - u * 2 ^ (- eq) ≤ 2000000.
Proof.
  intros Hu.
  destruct (nearest_double_normal u ltac:(lia)) as (mu & eu & HU & Hdu & Heu & Hmu).
  pose proof (digits2_pos_ge mu) as Hmu_ge. rewrite Hdu in Hmu_ge.
  pose proof (digits2_pos_gt mu) as Hmu_lt. rewrite Hdu in Hmu_lt.
  change (2 ^ (53 - 1)) with 4503599627370496 in Hmu_ge.
  change (2 ^ 53) with 9007199254740992 in Hmu_lt.
  assert (Heu' : eu ≤ -33).
  { destruct (Z.le_gt_cases eu (-33)) as [|Hgt]; [done|exfalso].
    assert (2 ^ (- eu) ≤ 2 ^ 32) as Hp by (apply Z.pow_le_mono_r; lia).
    change (2 ^ 32) with 4294967296 in Hp.
    assert (0 < 2 ^ (- eu)) by (apply Z.pow_pos_nonneg; lia). nia. }
  destruct (SFdiv_core_1000000_quotient mu eu Hdu Heu) as (q & r & Hcore & Hq & Hr).
  change (2 ^ 53) with 9007199254740992 in Hq.
  assert (Hqpos : 4503599627370496 ≤ q < 18014398509481984) by nia.
  destruct q as [|qp|qp]; try lia.
  pose proof (digits2_pos_le qp 54 ltac:(change (2 ^ 54) with 18014398509481984; lia))
    as Hdq.
  assert (Hdq' : 53 ≤ Z.pos (digits2_pos qp)).
  { pose proof (digits2_pos_gt qp) as Hgt.
    destruct (Z.le_gt_cases 53 (Z.pos (digits2_pos qp))) as [|Hsmall]; [done|exfalso].
    assert (2 ^ Z.pos (digits2_pos qp) ≤ 2 ^ 52) as Hp
      by (apply Z.pow_le_mono_r; lia).
    change (2 ^ 52) with 4503599627370496 in Hp. lia. }
  destruct (binary_round_aux_enclosed false qp (eu - 20)
              (new_location 8589934592000000 r) ltac:(lia) ltac:(lia))
    as (mf & ef & w & lo & Hround & Hw & Hef & Hlo & Hmf).
  exists mf, ef. unfold float_div, float_1000000, SFdiv.
  rewrite HU, Hcore. split; [exact Hround|]. split; [lia|].
  assert (HW : 0 < 2 ^ (w - (eu - 20)) ≤ 2).
  { split; [apply Z.pow_pos_nonneg; lia|].
    change 2 with (2 ^ 1) at 2. apply Z.pow_le_mono_r; lia. }
  assert (HT : 1 ≤ 2 ^ (ef - (eu - 20)))
    by (change 1 with (2 ^ 0); apply Z.pow_le_mono_r; lia).
  assert (HPf : 2 ^ (- ef) * 2 ^ (ef - (eu - 20)) = 2 ^ (- eu) * 1048576).
  { change 1048576 with (2 ^ 20). rewrite <- !Z.pow_add_r by lia. f_equal. lia. }
  assert (0 < 2 ^ (- ef)) by (apply Z.pow_pos_nonneg; lia).
  assert (0 < 2 ^ (- eu)) by (apply Z.pow_pos_nonneg; lia).
  set (W := 2 ^ (w - (eu - 20))) in *. set (T := 2 ^ (ef - (eu - 20))) in *.
  set (Pf := 2 ^ (- ef)) in *. set (Pu := 2 ^ (- eu)) in *.
  assert (Hnum : 8589934592 * (u * (Pf * T)) = Z.pos mu * 9007199254740992)
    by (rewrite HPf, Hmu; lia).
  assert (Hmain : - (2000000 * T) ≤ (Z.pos mf * 1000000 - u * Pf) * T
                  ≤ 2000000 * T) by nia.
  nia.
Qed.

Lemma digits2_pos_lower (p : positive) (k : Z) :
  2 ^ (k - 1) ≤ Z.pos p → k ≤ Z.pos (digits2_pos p).
Proof.
  intros Hle. pose proof (digits2_pos_gt p) as Hgt.
  destruct (Z.le_gt_cases k (Z.pos (digits2_pos p))) as [|Hsmall]; [done|exfalso].
  assert (2 ^ Z.pos (digits2_pos p) ≤ 2 ^ (k - 1)) as Hp
    by (apply Z.pow_le_mono_r; lia).
  lia.
Qed.

Lemma scale_cancel (Y Pf Tf : Z) :
  0 < Tf → - (Pf * Tf) < Y * Tf < Pf * Tf → - Pf < Y < Pf.
Proof. intros HT [H1 H2]. split; apply (Z.mul_lt_mono_pos_r Tf); lia. Qed.

(** Adding the quotient to a whole number of seconds below [2^32] keeps the
    result within half a microsecond of [sec + usec / 1000000]. *)
Lemma float_add_near (s u : Z) (mq : positive) (eq : Z) :
  0 < s < 2 ^ 32 → 0 < u < 1000000 → -72 ≤ eq ≤ -51 →
  - 2000000 ≤ Z.pos mq * 1000000 - u * 2 ^ (- eq) ≤ 2000000 →
  ∃ mf ef,
    float_add (nearest_double s) (S754_finite false mq eq) =
      S754_finite false mf ef ∧
    ef < 0 ∧
    - 2 ^ (- ef) < 2 * (Z.pos mf * 1000000 - (1000000 * s + u) * 2 ^ (- ef))
      < 2 ^ (- ef).
Proof.
  intros Hs Hu Heq Hq. change (2 ^ 32) with 4294967296 in Hs.
  assert (Hs53 : 0 < s < 2 ^ 53)
    by (change (2 ^ 53) with 9007199254740992; lia).
  destruct (nearest_double_normal s Hs53) as (ms & es & HS & Hds & Hes & Hms).
  pose proof (digits2_pos_ge ms) as Hms_ge. rewrite Hds in Hms_ge.
  change (2 ^ (53 - 1)) with 4503599627370496 in Hms_ge.
  rewrite HS. unfold float_add, SFadd.
  set (ez := Z.min es eq).
  pose proof (shl_align_value ms es ez ltac:(lia)) as Hx.
  pose proof (shl_align_value mq eq ez ltac:(lia)) as Hy.
  destruct (shl_align ms es ez) as [ax ?], (shl_align mq eq ez) as [ay ?].
  simpl in Hx, Hy. simpl.
  assert (HPz : 2 ^ 51 ≤ 2 ^ (- ez)) by (apply Z.pow_le_mono_r; lia).
  change (2 ^ 51) with 2251799813685248 in HPz.
  assert (HTs : 1 ≤ 2 ^ (es - ez))
    by (change 1 with (2 ^ 0); apply Z.pow_le_mono_r; lia).
  assert (HTq : 1 ≤ 2 ^ (eq - ez) ≤ 2).
  { split; [change 1 with (2 ^ 0)|change 2 with (2 ^ 1) at 2];
      apply Z.pow_le_mono_r; lia. }
  assert (HPs : 2 ^ (- es) * 2 ^ (es - ez) = 2 ^ (- ez))
    by (rewrite <- Z.pow_add_r by lia; f_equal; lia).
  assert (HPq : 2 ^ (- eq) * 2 ^ (eq - ez) = 2 ^ (- ez))
    by (rewrite <- Z.pow_add_r by lia; f_equal; lia).
  assert (HPq0 : 2 ^ 51 ≤ 2 ^ (- eq)) by (apply Z.pow_le_mono_r; lia).
  change (2 ^ 51) with 2251799813685248 in HPq0.
  assert (HA : Z.pos ax = s * 2 ^ (- ez)).
  { rewrite Hx, Hms, <- Z.mul_assoc, HPs. reflexivity. }
  set (Pz := 2 ^ (- ez)) in *. set (Pq := 2 ^ (- eq)) in *.
  set (Tq := 2 ^ (eq - ez)) in *.
  assert (HB : Z.pos ay < Pz) by nia.
  assert (HBerr : - 4000000 ≤ Z.pos ay * 1000000 - u * Pz ≤ 4000000) by nia.
  assert (HDlow : 53 ≤ Z.pos (digits2_pos (ax + ay))).
  { apply digits2_pos_lower. change (2 ^ (53 - 1)) with 4503599627370496.
    rewrite Pos2Z.inj_add. nia. }
  assert (HDup : Z.pos (digits2_pos (ax + ay)) ≤ 32 - ez).
  { apply digits2_pos_le.
    replace (32 - ez) with (32 + - ez) by lia. rewrite Z.pow_add_r by lia.
    fold Pz. change (2 ^ 32) with 4294967296. rewrite Pos2Z.inj_add, HA. nia. }
  unfold binary_round, shl_align.
  assert (Hf : fexp prec emax (Z.pos (digits2_pos (ax + ay)) + ez) =
               Z.pos (digits2_pos (ax + ay)) + ez - 53).
  { unfold fexp, SpecFloat.emin, prec, emax. lia. }
  rewrite Hf.
  destruct (Z.pos (digits2_pos (ax + ay)) + ez - 53 - ez) as [|d|d] eqn:Hd;
    try lia.
  all: destruct (binary_round_aux_enclosed false (ax + ay) ez loc_Exact
                ltac:(lia) ltac:(lia))
      as (mf & ef & w & lo & Hround & Hw & Hef & Hlo & Hmf);
    exists mf, ef; (split; [exact Hround|]); (split; [lia|]).
  all: assert (HW : 2 ^ (w - ez) * 2097152 ≤ Pz)
    by (change 2097152 with (2 ^ 21); unfold Pz;
        rewrite <- Z.pow_add_r by lia; apply Z.pow_le_mono_r; lia).
  all: assert (0 < 2 ^ (w - ez)) by (apply Z.pow_pos_nonneg; lia).
  all: assert (HPf : 2 ^ (- ef) * 2 ^ (ef - ez) = Pz)
    by (unfold Pz; rewrite <- Z.pow_add_r by lia; f_equal; lia).
  all: assert (0 < 2 ^ (- ef)) by (apply Z.pow_pos_nonneg; lia).
  all: assert (HTf : 0 < 2 ^ (ef - ez)) by (apply Z.pow_pos_nonneg; lia).
  all: set (Pf := 2 ^ (- ef)) in *; set (Tf := 2 ^ (ef - ez)) in *;
    set (W := 2 ^ (w - ez)) in *.
  all: rewrite Pos2Z.inj_add, HA in Hlo.
  all: assert (Herr : - (W * 1000000 + 4000000) ≤
              Z.pos mf * Tf * 1000000 - (1000000 * s + u) * Pz
              ≤ W * 1000000 + 4000000) by lia.
  all: rewrite <- HPf in Herr, HW, HPz.
  all: apply (scale_cancel _ Pf Tf HTf); lia.
Qed.

Lemma round_half_even_near (num den S : Z) :
  0 < den → - den < 2 * (num - S * den) < den → round_half_even num den = S.
Proof.
  intros Hden Hnear. unfold round_half_even.
  pose proof (Z.div_mod num den ltac:(lia)) as Hdm.
  pose proof (Z.mod_pos_bound num den Hden) as Hmb.
  set (q := num / den) in *. set (r := num mod den) in *.
  assert (Hk : q = S ∨ q + 1 = S ∨ q + 1 < S ∨ S < q) by lia.
  destruct (Z.compare_spec (2 * r) den) as [Heq|Hlt|Hgt].
  - exfalso. destruct Hk as [-> | [<- | [Hk | Hk]]]; nia.
  - destruct Hk as [Hk | [Hk | [Hk | Hk]]]; [done|exfalso; nia..].
  - destruct Hk as [Hk | [Hk | [Hk | Hk]]]; [exfalso; nia|done|exfalso; nia..].
Qed.

Lemma fixed_digits_micro (s u : Z) :
  0 ≤ s → 0 ≤ u < 1000000 →
  fixed_digits 6 (1000000 * s + u) =
  int_digits false 10 s +:+ "." +:+
  repeat_char "0" (6 - String.length (int_digits false 10 u)) +:+
  int_digits false 10 u.
Proof.
  intros Hs Hu. unfold fixed_digits. change (10 ^ Z.of_nat 6) with 1000000.
  assert ((1000000 * s + u) / 1000000 = s) as ->
    by (symmetry; apply Z.div_unique with (r := u); lia).
  assert ((1000000 * s + u) mod 1000000 = u) as ->
    by (symmetry; apply Z.mod_unique with (q := s); lia).
  reflexivity.
Qed.

Lemma fixed6_near (m : positive) (ex S : Z) :
  ex < 0 → - 2 ^ (- ex) < 2 * (Z.pos m * 1000000 - S * 2 ^ (- ex)) < 2 ^ (- ex) →
  fixed6 (S754_finite false m ex) = fixed_digits 6 S.
Proof.
  intros Hex Hnear. unfold fixed6, float_fixed.
  destruct (Z.leb_spec 0 ex) as [|_]; [lia|].
  change (10 ^ Z.of_nat 6) with 1000000.
  rewrite (round_half_even_near _ _ S); [reflexivity| |exact Hnear].
  apply Z.pow_pos_nonneg; lia.
Qed.

(** The timestamp of a realistic event is within half a microsecond of
    [sec + usec / 1000000]. *)
Lemma timestamp_near (e : InputEvent) :
  0 ≤ sec e < 2 ^ 32 → 0 ≤ usec e < 1000000 →
  fixed6 (nominal_timestamp e) = fixed_digits 6 (1000000 * sec e + usec e).
Proof.
  intros Hs Hu. unfold nominal_timestamp.
  destruct (Z.eq_dec (usec e) 0) as [Hu0|Hu0].
  - rewrite Hu0, float_div_zero.
    destruct (Z.eq_dec (sec e) 0) as [Hs0|Hs0]; [rewrite Hs0; reflexivity|].
    assert (Hs53 : 0 < sec e < 2 ^ 53).
    { change (2 ^ 32) with 4294967296 in Hs.
      change (2 ^ 53) with 9007199254740992. lia. }
    destruct (nearest_double_normal (sec e) Hs53)
      as (ms & es & HS & Hds & Hes & Hms).
    rewrite HS.
    change (float_add (S754_finite false ms es) (S754_zero false))
      with (S754_finite false ms es).
    pose proof (digits2_pos_gt ms) as Hlt. rewrite Hds in Hlt.
    assert (es < 0).
    { destruct (Z.eq_dec es 0) as [->|]; [|lia]. exfalso.
      change (2 ^ (- 0)) with 1 in Hms. pose proof (digits2_pos_ge ms) as Hge.
      rewrite Hds in Hge. change (2 ^ (53 - 1)) with 4503599627370496 in Hge.
      change (2 ^ 32) with 4294967296 in Hs. lia. }
    apply fixed6_near; [done|].
    assert (0 < 2 ^ (- es)) by (apply Z.pow_pos_nonneg; lia).
    rewrite Hms. nia.
  - destruct (float_div_1000000_near (usec e) ltac:(lia))
      as (mq & eq & HQ & Heq & Hq).
    rewrite HQ.
    destruct (Z.eq_dec (sec e) 0) as [Hs0|Hs0].
    + rewrite Hs0.
      change (float_add (nearest_double 0) (S754_finite false mq eq))
        with (S754_finite false mq eq).
      apply fixed6_near; [lia|].
      assert (2 ^ 51 ≤ 2 ^ (- eq)) as HP by (apply Z.pow_le_mono_r; lia).
      change (2 ^ 51) with 2251799813685248 in HP. lia.
    + destruct (float_add_near (sec e) (usec e) mq eq ltac:(lia) ltac:(lia)
                  Heq Hq) as (mf & ef & Hadd & Hef & Hnear).
      rewrite Hadd. by apply fixed6_near.
Qed.

(** X6: for an event of a real device ([sec] below [2^32], [usec] below one
    million) the rounding of the binary64 timestamp never shows: formatted
    with six decimals, as in every display, it reads exactly as the seconds,
    a point and the microseconds on six digits. *)
Theorem X6_timestamp_text_exact (e : InputEvent) :
  0 ≤ sec e < 2 ^ 32 → 0 ≤ usec e < 1000000 →
  ∃ ts, timestamp e = Ok ts ∧ fixed6 ts = exact_timestamp_text e.
Proof.
  intros Hs Hu. exists (nominal_timestamp e). split.
  - apply timestamp_ok.
    + change (2 ^ 32) with 4294967296 in Hs.
      change (2 ^ 64) with 18446744073709551616. lia.
    + change (2 ^ 64) with 18446744073709551616. lia.
  - rewrite timestamp_near by done. apply fixed_digits_micro; lia.
Qed.

(** X6 at the last microsecond before [2^32] seconds. *)
Lemma X6_timestamp_text_exact_witness :
  let e := mkInputEvent 4294967295 999999 0 0 0 in
  ∃ ts, timestamp e = Ok ts ∧ fixed6 ts = "4294967295.999999"%string.
Proof.
  intros e. apply (X6_timestamp_text_exact e); simpl; lia.
Defined.

(** X7: the display of a generic event of a real device shows the
    timestamp exactly: [event at], the seconds, a point, the microseconds
    on six digits, then the code, the type and the value. *)
Theorem X7_event_display_exact (e : InputEvent) :
  0 ≤ sec e < 2 ^ 32 → 0 ≤ usec e < 1000000 →
  InputEvent_str e =
  Ok ("event at " +:+ exact_timestamp_text e +:+ ", code " +:+ dec02 (code e) +:+
      ", type " +:+ dec02 (type e) +:+ ", val " +:+ dec02 (value e)).
Proof.
  intros Hs Hu.
  assert (Hts : timestamp e = Ok (nominal_timestamp e)).
  { apply timestamp_ok.
    - change (2 ^ 32) with 4294967296 in Hs.
      change (2 ^ 64) with 18446744073709551616. lia.
    - change (2 ^ 64) with 18446744073709551616. lia. }
  unfold InputEvent_str. rewrite Hts. cbn [mbind res_bind].
  rewrite format_InputEvent, timestamp_near by done.
  by rewrite fixed_digits_micro by lia.
Qed.

(** X7 at the event of the module docstring. *)
Lemma X7_event_display_exact_witness :
  InputEvent_str (mkInputEvent 1337197425 477827 4 4 458792) =
  Ok "event at 1337197425.477827, code 04, type 04, val 458792".
Proof.
  apply (X7_event_display_exact (mkInputEvent 1337197425 477827 4 4 458792));
    simpl; lia.
Defined.

(** * The reconstruction form: decimal literals read back *)

(** ** Decimal digits *)











(** ** The reconstruction form *)













(** * The failures of the displays *)







End Props.
